(** * script-copilot: the execute endpoint and the terminal session

    Two components of the repository are embedded here.

    - [Backend]: [handleExecuteScript] of [backend/main.go], the handler of
      [POST /execute-script].  The handler is written in a small monad for a
      Go function body: a world (files, spawned processes), a stack of
      deferred calls, what the calls of [c.JSON] wrote, and early [return].
    - [Terminal]: the [TerminalEmulator] React component: its state hooks, the
      built-in command table, [executeCommand], [handleKeyDown] and the
      imperative handle.  State setters queue updates that the next render
      applies; the history array lives in a store of array objects, so that
      an in-place array method is seen by every reference to the array.
      Left out: the text selection and the clipboard, scrolling, the
      [script] property, and the copy of the history written to local
      storage (the history read from it at mount is an argument of the
      first state). *)

From Stdlib Require QArith.
From stdpp Require Import gmap strings list pretty.

(* ===================================================================== *)
(** * The execute endpoint (backend/main.go)                              *)
(* ===================================================================== *)

Module Backend.

Local Open Scope string_scope.

(** ** Request and response types *)

Record ExecuteScriptRequest := { Script : string }.

Record ExecuteScriptResponse := {
  Success : bool;
  Output : string;   (* json:"output,omitempty" *)
  Error : string     (* json:"error,omitempty" *)
}.

(** What [c.JSON] is given: a [gin.H{"error": msg}] or a result struct. *)
Inductive payload :=
  | H_error (msg : string)
  | Result (r : ExecuteScriptResponse).

Record response := { status : nat; body : payload }.

(** The statuses the handler answers with, constants of [net/http]. *)
Inductive http_status :=
  | StatusOK
  | StatusBadRequest
  | StatusInternalServerError.

Definition code_of (s : http_status) : nat :=
  match s with
  | StatusOK => 200
  | StatusBadRequest => 400
  | StatusInternalServerError => 500
  end.

(** The keys of the JSON object that [encoding/json] writes for a payload:
    a field tagged [omitempty] is left out when it holds the empty string. *)
Definition json_keys (p : payload) : list string :=
  match p with
  | H_error _ => ["error"]
  | Result r =>
      ["success"]
      ++ (if decide (Output r = "") then [] else ["output"])
      ++ (if decide (Error r = "") then [] else ["error"])
  end.

(** ** Binding the request

    The body of the request as the JSON decoder sees it: not JSON at all, or
    an object whose [script] member is missing, a string, or of another
    type. *)
Inductive json_member :=
  | Missing
  | JString (s : string)
  | JOther.

Inductive request_body :=
  | Malformed
  | JObject (script : json_member).

(** [c.ShouldBindJSON(&req)] for [ExecuteScriptRequest]: decoding fails on a
    malformed body and on a member of the wrong type; the validator of
    [binding:"required"] then refuses the zero value of the field, which for
    a string is the empty string (a missing member leaves the field at its
    zero value). *)
Definition ShouldBindJSON (b : request_body) : string + ExecuteScriptRequest :=
  match b with
  | Malformed => inl "invalid character"
  | JObject JOther => inl "json: cannot unmarshal into Go struct field ExecuteScriptRequest.script of type string"
  | JObject Missing =>
      inl "Key: 'ExecuteScriptRequest.Script' Error:Field validation for 'Script' failed on the 'required' tag"
  | JObject (JString s) =>
      if decide (s = "") then
        inl "Key: 'ExecuteScriptRequest.Script' Error:Field validation for 'Script' failed on the 'required' tag"
      else inr {| Script := s |}
  end.

(** ** The world the handler acts on *)

Record file := { data : string; mode : N }.

Definition mode_0600 : N := 384.   (* rw------- *)
Definition mode_0755 : N := 493.   (* rwxr-xr-x *)

(** What a path names: a regular file, or a directory with its entries. *)
Inductive node :=
  | regular (f : file)
  | directory (entries : list string).

Record world := {
  files : gmap string node;            (* the file system, by path *)
  spawned : list (list string)         (* argv of every child started *)
}.

(** How a child ends, as [cmd.Run] reports it. *)
Inductive termination :=
  | exit_status (code : nat)           (* the child exited with this status *)
  | signal (name : string)             (* the child was killed by a signal *)
  | start_failure (msg : string).      (* the child could not be started *)

(** What running a child does: the files it leaves behind, what it wrote
    to its two sinks, and how it ended. *)
Record child_run := {
  files_after : gmap string node;
  stdout : string;
  stderr : string;
  ended : termination
}.

(** The operating system, as far as the handler asks it: each call either
    fails or succeeds, and the child does what it does. *)
Record OS := {
  CreateTemp_name : gmap string node -> option string;  (* None: error *)
  Write_error : option nat;        (* Some n: error after n bytes *)
  Close_error : bool;
  Chmod_error : bool;
  Remove_error : bool;             (* the system refuses to remove *)
  bash : list string -> gmap string node -> child_run
}.

(** The text of the error of [cmd.Run]: the process state of a child that
    ran ([exit status N], [signal: NAME]), or the reason the start failed. *)
Definition Error_text (t : termination) : string :=
  match t with
  | exit_status n => "exit status " +:+ pretty n
  | signal s => "signal: " +:+ s
  | start_failure msg => msg
  end.

(** The error of [cmd.Run]: nil exactly when the child ran and exited with
    status 0. *)
Definition Run_error (t : termination) : option string :=
  match t with
  | exit_status 0 => None
  | _ => Some (Error_text t)
  end.

(** ** A Go function body: state, deferred calls, early return *)

Record frame := {
  the_world : world;
  deferred : list (world -> world);    (* most recent first *)
  written : list response              (* the calls of c.JSON, in order *)
}.

Inductive flow (A : Type) :=
  | Next (a : A)
  | Returned.
Arguments Next {A} a.
Arguments Returned {A}.

Definition Go (A : Type) : Type := frame -> flow A * frame.

Definition pure {A} (a : A) : Go A := fun f => (Next a, f).

Definition bind {A B} (m : Go A) (k : A -> Go B) : Go B :=
  fun f =>
    match m f with
    | (Next a, f') => k a f'
    | (Returned, f') => (Returned, f')
    end.

#[local] Instance Go_ret : MRet Go := @pure.
#[local] Instance Go_bind : MBind Go := fun A B k m => bind m k.

Definition return_ : Go unit := fun f => (Returned, f).

Definition defer (g : world -> world) : Go unit :=
  fun f => (Next tt, {| the_world := the_world f;
                        deferred := g :: deferred f;
                        written := written f |}).

Definition on_world {A} (g : world -> A * world) : Go A :=
  fun f => let '(a, w') := g (the_world f) in
           (Next a, {| the_world := w'; deferred := deferred f;
                       written := written f |}).

(** [c.JSON(code, obj)] with one of the three statuses: each call is
    recorded, with the status and the body it hands to the writer. *)
Definition JSON (code : http_status) (p : payload) : Go unit :=
  fun f => (Next tt, {| the_world := the_world f; deferred := deferred f;
                        written := written f ++ [{| status := code_of code; body := p |}] |}).

(** [if cond { ... return }] *)
Definition when (cond : bool) (m : Go unit) : Go unit :=
  if cond then m else pure tt.

(** Leaving the function: the deferred calls run, the most recent first. *)
Definition run_deferred (ds : list (world -> world)) (w : world) : world :=
  foldl (fun w d => d w) w ds.

(** The answer of a handler that called [c.JSON] exactly once. *)
Definition answer_of (log : list response) : option response :=
  match log with
  | [r] => Some r
  | _ => None
  end.

(** Running a handler: every call of [c.JSON] it made, and the world it
    leaves. *)
Definition calls (m : Go unit) (w : world) : list response * world :=
  let '(_, f) := m {| the_world := w; deferred := []; written := [] |} in
  (written f, run_deferred (deferred f) (the_world f)).

Definition call (m : Go unit) (w : world) : option response * world :=
  (answer_of (calls m w).1, (calls m w).2).

(** ** The system calls *)

Definition with_files (g : gmap string node -> gmap string node) (w : world) : world :=
  {| files := g (files w); spawned := spawned w |}.

(** A change of the file a path names; a directory is left as it is. *)
Definition on_file (g : file -> file) (n : node) : node :=
  match n with
  | regular f => regular (g f)
  | directory es => directory es
  end.

(** [os.CreateTemp("", "script-*.sh")]: a new, empty file of mode 0600. *)
Definition os_CreateTemp (os : OS) : Go (option string) :=
  on_world (fun w =>
    match CreateTemp_name os (files w) with
    | None => (None, w)
    | Some name =>
        (Some name,
         with_files (insert name (regular {| data := ""; mode := mode_0600 |})) w)
    end).

(** [tmpfile.Write(b)]: all of [b] on success, a prefix of it on error. *)
Definition file_Write (os : OS) (name : string) (b : string) : Go bool :=
  on_world (fun w =>
    match Write_error os with
    | None =>
        (false, with_files
                  (alter (on_file (fun f => {| data := b; mode := mode f |})) name) w)
    | Some n =>
        (true, with_files
                 (alter (on_file (fun f => {| data := String.substring 0 n b;
                                              mode := mode f |})) name) w)
    end).

Definition file_Close (os : OS) : Go bool :=
  on_world (fun w => (Close_error os, w)).

Definition os_Chmod (os : OS) (name : string) (m : N) : Go bool :=
  on_world (fun w =>
    if Chmod_error os then (true, w)
    else (false, with_files
                   (alter (on_file (fun f => {| data := data f; mode := m |})) name) w)).

(** [os.Remove(name)], whose error the handler drops: a directory that is
    not empty stays, and so does whatever the system refuses to remove;
    otherwise the name is gone. *)
Definition os_Remove (os : OS) (name : string) (w : world) : world :=
  match files w !! name with
  | Some (directory (_ :: _)) => w
  | _ => if Remove_error os then w else with_files (delete name) w
  end.

(** [exec.Command(argv...)] with both sinks buffered, then [cmd.Run()].
    When the child cannot be started there is no child: nothing is
    spawned and the files stay as they are. *)
Definition cmd_Run (os : OS) (argv : list string) : Go child_run :=
  on_world (fun w =>
    let r := bash os argv (files w) in
    match ended r with
    | start_failure _ => (r, w)
    | _ => (r, {| files := files_after r; spawned := argv :: spawned w |})
    end).

(** ** The handler *)

Definition handleExecuteScript (os : OS) (c : request_body) : Go unit :=
  match ShouldBindJSON c with
  | inl err =>
      JSON StatusBadRequest (H_error err) ;;
      return_
  | inr req =>
      tmpfile ← os_CreateTemp os;
      match tmpfile with
      | None =>
          JSON StatusInternalServerError (H_error "Failed to create temporary script file") ;;
          return_
      | Some name =>
          defer (os_Remove os name) ;;
          werr ← file_Write os name (Script req);
          when werr (
            _ ← file_Close os;
            JSON StatusInternalServerError (H_error "Failed to write script to file") ;;
            return_) ;;
          cerr ← file_Close os;
          when cerr (
            JSON StatusInternalServerError (H_error "Failed to close script file after writing") ;;
            return_) ;;
          merr ← os_Chmod os name mode_0755;
          when merr (
            JSON StatusInternalServerError (H_error "Failed to make script executable") ;;
            return_) ;;
          r ← cmd_Run os ["bash"; name];
          match Run_error (ended r) with
          | Some err =>
              JSON StatusOK (Result {|
                Success := false;
                Output := stdout r;
                Error := "Script execution failed: " +:+ err +:+ "
" +:+ stderr r |}) ;;
              return_
          | None =>
              JSON StatusOK (Result {|
                Success := true;
                Output := stdout r;
                Error := "" |})
          end
      end
  end.

(** One request served from world [w]. *)
Definition serve (os : OS) (c : request_body) (w : world) : option response * world :=
  call (handleExecuteScript os c) w.

(** Every call of [c.JSON] made while serving one request. *)
Definition answers (os : OS) (c : request_body) (w : world) : list response :=
  (calls (handleExecuteScript os c) w).1.

(** ** Strings in the JSON text

    [encoding/json] writes a Go string as valid UTF-8: a byte that does
    not begin a valid encoding is replaced by U+FFFD.  [rune_width] is
    the width [utf8.DecodeRune] finds at the head of the bytes, [None]
    where it finds no valid encoding. *)
Definition between (lo hi b : N) : bool := ((lo <=? b) && (b <=? hi))%N.

Definition rune_width (bs : list N) : option nat :=
  match bs with
  | [] => None
  | b0 :: r =>
      if (b0 <? 128)%N then Some 1
      else match r with
      | [] => None
      | b1 :: r1 =>
          if between 194 223 b0 && between 128 191 b1 then Some 2
          else match r1 with
          | [] => None
          | b2 :: r2 =>
              if ((b0 =? 224)%N && between 160 191 b1
                  || between 225 236 b0 && between 128 191 b1
                  || (b0 =? 237)%N && between 128 159 b1
                  || between 238 239 b0 && between 128 191 b1)
                 && between 128 191 b2 then Some 3
              else match r2 with
              | [] => None
              | b3 :: _ =>
                  if ((b0 =? 240)%N && between 144 191 b1
                      || between 241 243 b0 && between 128 191 b1
                      || (b0 =? 244)%N && between 128 143 b1)
                     && between 128 191 b2 && between 128 191 b3 then Some 4
                  else None
              end
          end
      end
  end.

(** The bytes as the JSON text carries them; [inside] counts the bytes
    still to copy of the encoding being copied. *)
Fixpoint coerced (inside : nat) (bs : list N) : list N :=
  match bs with
  | [] => []
  | b :: r =>
      match inside with
      | S k => b :: coerced k r
      | O =>
          match rune_width bs with
          | Some n => b :: coerced (n - 1) r
          | None => 239%N :: 191%N :: 189%N :: coerced 0 r
          end
      end
  end.

(** [utf8.Valid] *)
Fixpoint valid_from (inside : nat) (bs : list N) : bool :=
  match bs with
  | [] => true
  | b :: r =>
      match inside with
      | S k => valid_from k r
      | O =>
          match rune_width bs with
          | Some n => valid_from (n - 1) r
          | None => false
          end
      end
  end.

Definition bytes (s : string) : list N :=
  (fun a => Ascii.N_of_ascii a) <$> String.list_ascii_of_string s.

Definition of_bytes (bs : list N) : string :=
  String.string_of_list_ascii ((fun b => Ascii.ascii_of_N b) <$> bs).

Definition utf8_valid (s : string) : bool := valid_from 0 (bytes s).

(** The string a client reads back from the JSON text written for [s]. *)
Definition received (s : string) : string := of_bytes (coerced 0 (bytes s)).

(** The [output] member of the JSON object a client receives: absent for
    an empty [Output] and for an error object. *)
Definition output_field (p : payload) : option string :=
  match p with
  | H_error _ => None
  | Result r => if decide (Output r = "") then None else Some (received (Output r))
  end.

(** How a child that ran can fail: a status other than 0, or a signal. *)
Definition script_level_failure (t : termination) : Prop :=
  match t with
  | exit_status n => n ≠ 0
  | signal _ => True
  | start_failure _ => False
  end.

(** ** Values used in the statements below *)

(** A concrete operating system for the examples: every call succeeds, the
    temporary file is [/tmp/script-1.sh], and the child prints [out] and
    [err] and ends as [t], leaving the files as they are. *)
Definition plain_os (out err : string) (t : termination) : OS := {|
  CreateTemp_name := fun _ => Some "/tmp/script-1.sh";
  Write_error := None;
  Close_error := false;
  Chmod_error := false;
  Remove_error := false;
  bash := fun _ fs => {| files_after := fs; stdout := out; stderr := err; ended := t |}
|}.

Definition no_files : world := {| files := ∅; spawned := [] |}.

(** The file the child is started on: the script, byte for byte, mode 0755. *)
Definition materialized (name script : string) (fs : gmap string node) : gmap string node :=
  <[name := regular {| data := script; mode := mode_0755 |}]> fs.

(** The world when [cmd.Run] has returned. *)
Definition after_Run (os : OS) (name script : string) (w : world) : world :=
  let r := bash os ["bash"; name] (materialized name script (files w)) in
  match ended r with
  | start_failure _ =>
      {| files := materialized name script (files w); spawned := spawned w |}
  | _ => {| files := files_after r; spawned := ["bash"; name] :: spawned w |}
  end.

(** A child that rewrites its own script file and is then killed. *)
Definition stubborn_os : OS := {|
  CreateTemp_name := fun _ => Some "/tmp/script-7.sh";
  Write_error := None;
  Close_error := false;
  Chmod_error := false;
  Remove_error := false;
  bash := fun argv fs =>
    {| files_after :=
         <["/tmp/script-7.sh" := regular {| data := "again"; mode := mode_0755 |}]> fs;
       stdout := ""; stderr := ""; ended := signal "killed" |}
|}.

(** A child that puts a directory with one entry where its script was
    (rm "$0"; mkdir "$0"; touch "$0/x"), and exits with status 0. *)
Definition squatting_os : OS := {|
  CreateTemp_name := fun _ => Some "/tmp/script-7.sh";
  Write_error := None;
  Close_error := false;
  Chmod_error := false;
  Remove_error := false;
  bash := fun argv fs =>
    {| files_after := <["/tmp/script-7.sh" := directory ["x"]]> fs;
       stdout := ""; stderr := ""; ended := exit_status 0 |}
|}.

(** The one byte FF, which is not UTF-8. *)
Definition byte_FF : string := String (Ascii.ascii_of_N 255) "".

End Backend.

(* ===================================================================== *)
(** * The terminal session (TerminalEmulator component)                   *)
(* ===================================================================== *)

Module Terminal.

(** ** Strings

    A JavaScript string is a sequence of UTF-16 code units. *)
Abbreviation jsstring := (list N).

Definition str (s : string) : jsstring :=
  (fun a => Ascii.N_of_ascii a) <$> String.list_ascii_of_string s.

(** A string is truthy when it is not empty. *)
Definition truthy (s : jsstring) : bool :=
  match s with [] => false | _ => true end.

(** White space and line terminators of ECMAScript, which [trim] strips. *)
Definition isWhiteSpace (c : N) : bool :=
  bool_decide (c ∈ [9; 10; 11; 12; 13; 32; 160; 5760; 8232; 8233; 8239; 8287;
                    12288; 65279]%N)
  || ((8192 <=? c) && (c <=? 8202))%N.

Fixpoint trimStart (s : jsstring) : jsstring :=
  match s with
  | c :: s' => if isWhiteSpace c then trimStart s' else s
  | [] => []
  end.

Definition trim (s : jsstring) : jsstring :=
  reverse (trimStart (reverse (trimStart s))).

(** [s.split(sep)] for a separator of one code unit; never empty. *)
Fixpoint split (sep : N) (s : jsstring) : list jsstring :=
  match s with
  | [] => [[]]
  | c :: s' =>
      if (c =? sep)%N then [] :: split sep s'
      else match split sep s' with
           | w :: ws => (c :: w) :: ws
           | [] => [[c]]
           end
  end.

(** [a.join(sep)] *)
Fixpoint join (sep : jsstring) (a : list jsstring) : jsstring :=
  match a with
  | [] => []
  | [x] => x
  | x :: a' => x ++ sep ++ join sep a'
  end.

(** [s.startsWith(p)] *)
Fixpoint startsWith (s p : jsstring) : bool :=
  match p, s with
  | [], _ => true
  | c :: p', d :: s' => (c =? d)%N && startsWith s' p'
  | _ :: _, [] => false
  end.

(** [s.toLowerCase()] on the code units of A to Z.  Other code units are
    kept: the result is only compared, by [startsWith], with the names of
    the command table, made of a to z, and no code unit above 127 has a
    lower case that is a prefix of one of them. *)
Definition toLowerCase (s : jsstring) : jsstring :=
  (fun c => if ((65 <=? c) && (c <=? 90))%N then (c + 32)%N else c) <$> s.

(** ** Lines and component state *)

Inductive line_type := input | output | error.

Record line := { content : jsstring; type : line_type }.

Definition prompt : line := {| content := str "$ "; type := input |}.

Definition welcome : line :=
  {| content := str "Welcome to Script Generator Terminal. Type " ++ [34%N]
                ++ str "help" ++ [34%N] ++ str " for available commands.";
     type := output |}.

(** Arrays are objects: a variable holds a reference, and the elements are
    in the store. *)
Record store := {
  arrays : gmap nat (list jsstring);
  next : nat                          (* the next reference to hand out *)
}.

Definition read (l : nat) (s : store) : list jsstring :=
  default [] (arrays s !! l).

Definition alloc (a : list jsstring) (s : store) : nat * store :=
  (next s, {| arrays := <[next s := a]> (arrays s); next := S (next s) |}).

(** The values of the [useState] hooks at one render. *)
Record state := {
  lines : list line;
  currentInput : jsstring;
  history : nat;                      (* a reference to the history array *)
  historyIndex : Z;
  workingDirectory : jsstring
}.

(** ** State setters

    A call of a setter does not change the state of the running handler:
    it queues an update, and the next render applies the queued updates in
    order, an updater function to the state as it is then. *)
Inductive update :=
  | setLines (next_lines : list line -> list line)
  | setCurrentInput (v : jsstring)
  | setHistory (updater : list jsstring -> list jsstring)
  | setHistoryIndex (v : Z)
  | setWorkingDirectory (v : jsstring).

Definition apply_update (u : update) (r : state * store) : state * store :=
  let '(st, s) := r in
  match u with
  | setLines f =>
      ({| lines := f (lines st); currentInput := currentInput st;
          history := history st; historyIndex := historyIndex st;
          workingDirectory := workingDirectory st |}, s)
  | setCurrentInput v =>
      ({| lines := lines st; currentInput := v;
          history := history st; historyIndex := historyIndex st;
          workingDirectory := workingDirectory st |}, s)
  | setHistory f =>
      (* the updater gets the array that is the state now and builds a new one *)
      let '(l, s') := alloc (f (read (history st) s)) s in
      ({| lines := lines st; currentInput := currentInput st;
          history := l; historyIndex := historyIndex st;
          workingDirectory := workingDirectory st |}, s')
  | setHistoryIndex v =>
      ({| lines := lines st; currentInput := currentInput st;
          history := history st; historyIndex := v;
          workingDirectory := workingDirectory st |}, s)
  | setWorkingDirectory v =>
      ({| lines := lines st; currentInput := currentInput st;
          history := history st; historyIndex := historyIndex st;
          workingDirectory := v |}, s)
  end.

(** ** Event handlers

    A handler runs on the state of the current render, which it cannot
    change; it can queue updates and act on the store. *)
Record pending := {
  heap : store;
  queue : list update                 (* oldest first *)
}.

Definition Handler (A : Type) : Type := pending -> A * pending.

#[export] Instance Handler_ret : MRet Handler := fun A a p => (a, p).
#[export] Instance Handler_bind : MBind Handler :=
  fun A B k m p => let '(a, p') := m p in k a p'.

Definition enqueue (u : update) : Handler unit :=
  fun p => (tt, {| heap := heap p; queue := queue p ++ [u] |}).

(** [a.length] and [a[i]] of the array behind a reference.  An index out of
    range gives [undefined] in JavaScript; here it gives the empty string
    (see [index_in_range]: the handlers only read inside the array). *)
Definition Array_length (l : nat) : Handler Z :=
  fun p => (Z.of_nat (length (read l (heap p))), p).

Definition Array_get (l : nat) (i : Z) : Handler jsstring :=
  fun p => (if (i <? 0)%Z then [] else default [] (read l (heap p) !! Z.to_nat i), p).

(** [a.reverse()] reverses the array in place and returns the same array. *)
Definition reversed_in_place (l : nat) (s : store) : store :=
  {| arrays := alter reverse l (arrays s); next := next s |}.

Definition Array_reverse (l : nat) : Handler nat :=
  fun p => (l, {| heap := reversed_in_place l (heap p); queue := queue p |}).

(** [a.join(sep)] of the array behind a reference. *)
Definition Array_join (l : nat) (sep : jsstring) : Handler jsstring :=
  fun p => (join sep (read l (heap p)), p).

(** The imperative handle given to the parent. *)
Inductive ref_call :=
  | addOutput (text : jsstring) (kind : line_type)
  | clear.

Definition useImperativeHandle (c : ref_call) : Handler unit :=
  match c with
  | addOutput text kind =>
      enqueue (setLines (fun prev => prev ++ [{| content := text; type := kind |}]))
  | clear =>
      enqueue (setLines (fun _ => [prompt]))
  end.

Record TerminalCommand := {
  name : jsstring;
  description : jsstring;
  execute : list jsstring -> Handler jsstring
}.

Record KeyboardEvent := { key : jsstring; ctrlKey : bool }.

(** The entries of the command table.  The table is built at every render,
    and two of its entries close over the state [st] of that render. *)
Definition clear_command : TerminalCommand :=
  {| name := str "clear";
     description := str "Clear the terminal screen";
     execute := fun _ =>
       enqueue (setLines (fun _ => [prompt])) ;;
       mret (str "") |}.

Definition help_command : TerminalCommand :=
  {| name := str "help";
     description := str "Show available commands";
     execute := fun _ =>
       mret (str "Available commands:
  clear - Clear the terminal screen
  help  - Show this help message
  pwd   - Print working directory
  cd    - Change directory (simulation)
  history - Show command history") |}.

Definition pwd_command (st : state) : TerminalCommand :=
  {| name := str "pwd";
     description := str "Print working directory";
     execute := fun _ => mret (workingDirectory st) |}.

Definition cd_command : TerminalCommand :=
  {| name := str "cd";
     description := str "Change directory (simulation)";
     execute := fun args =>
       let newPath := match args with
                      | a :: _ => if truthy a then a else str "~"
                      | [] => str "~"
                      end in
       enqueue (setWorkingDirectory newPath) ;;
       mret (str "") |}.

Definition history_command (st : state) : TerminalCommand :=
  {| name := str "history";
     description := str "Show command history";
     execute := fun _ =>
       a ← Array_reverse (history st);
       Array_join a (str "
") |}.

Definition builtInCommands (st : state) : list TerminalCommand :=
  [clear_command; help_command; pwd_command st; cd_command; history_command st].

(** [builtInCommands.find(c => c.name === cmd)] *)
Definition builtin (st : state) (cmd : jsstring) : option TerminalCommand :=
  find (fun c => bool_decide (name c = cmd)) (builtInCommands st).

Section Component.

(** The [onExecute] property: what the parent does with a command that is
    not built in, as the calls it makes on the handle. *)
Variable onExecute : option (jsstring -> list ref_call).

Definition executeCommand (st : state) (command : jsstring) : Handler unit :=
  match split 32 (trim command) with
  | [] => mret tt
  | cmd :: args =>
      match builtin st cmd with
      | Some builtInCommand =>
          out ← execute builtInCommand args;
          if truthy out then
            enqueue (setLines (fun prev => prev ++ [{| content := out; type := output |}]))
          else mret tt
      | None =>
          match onExecute with
          | Some f => mapM useImperativeHandle (f command) ;; mret tt
          | None => mret tt
          end
      end
  end.

Definition handleKeyDown (st : state) (e : KeyboardEvent) : Handler unit :=
  if bool_decide (key e = str "Enter") then
    let command := trim (currentInput st) in
    if truthy command then
      enqueue (setHistory (fun prev => take 50 (command :: prev))) ;;
      enqueue (setHistoryIndex (-1)) ;;
      enqueue (setLines (fun prev =>
        prev ++ [{| content := workingDirectory st ++ str " $ " ++ currentInput st;
                    type := input |}])) ;;
      executeCommand st command ;;
      enqueue (setCurrentInput (str "")) ;;
      enqueue (setLines (fun prev => prev ++ [prompt]))
    else mret tt
  else if bool_decide (key e = str "ArrowUp") then
    len ← Array_length (history st);
    if (historyIndex st <? len - 1)%Z then
      let newIndex := (historyIndex st + 1)%Z in
      enqueue (setHistoryIndex newIndex) ;;
      v ← Array_get (history st) newIndex;
      enqueue (setCurrentInput v)
    else mret tt
  else if bool_decide (key e = str "ArrowDown") then
    if (0 <? historyIndex st)%Z then
      let newIndex := (historyIndex st - 1)%Z in
      enqueue (setHistoryIndex newIndex) ;;
      v ← Array_get (history st) newIndex;
      enqueue (setCurrentInput v)
    else if (historyIndex st =? 0)%Z then
      enqueue (setHistoryIndex (-1)) ;;
      enqueue (setCurrentInput (str ""))
    else mret tt
  else if bool_decide (key e = str "Tab") then
    let input := toLowerCase (currentInput st) in
    match find (fun cmd => startsWith (name cmd) input) (builtInCommands st) with
    | Some suggestion => enqueue (setCurrentInput (name suggestion))
    | None => mret tt
    end
  else if ctrlKey e && bool_decide (key e = str "l") then
    executeCommand st (str "clear")
  else mret tt.

(** The [onChange] of the input element. *)
Definition handleChange (value : jsstring) : Handler unit :=
  enqueue (setCurrentInput value).

(** ** The session as a transition system *)

Inductive event :=
  | onKeyDown (e : KeyboardEvent)
  | onChange (value : jsstring)
  | handle (c : ref_call).

Definition handler_of (st : state) (ev : event) : Handler unit :=
  match ev with
  | onKeyDown e => handleKeyDown st e
  | onChange v => handleChange v
  | handle c => useImperativeHandle c
  end.

(** The render after a handler: the queued updates are applied in order. *)
Definition render (st : state) (p : pending) : state * store :=
  foldl (fun r u => apply_update u r) (st, heap p) (queue p).

Definition step (r : state * store) (ev : event) : state * store :=
  let '(st, s) := r in
  render st (handler_of st ev {| heap := s; queue := [] |}).2.

Definition run (r : state * store) (evs : list event) : state * store :=
  foldl step r evs.

End Component.

(** The first render; [saved] is the history found in local storage. *)
Definition initial (initialWorkingDirectory : jsstring) (saved : list jsstring)
  : state * store :=
  ({| lines := [welcome; prompt];
      currentInput := str "";
      history := 0;
      historyIndex := -1;
      workingDirectory := initialWorkingDirectory |},
   {| arrays := {[ 0 := saved ]}; next := 1 |}).

(** The elements of the history array of a session. *)
Definition history_of (r : state * store) : list jsstring :=
  read (history r.1) r.2.

(** The command word of a submitted text. *)
Definition first_token (command : jsstring) : jsstring :=
  hd [] (split 32 (trim command)).

(** The updates that touch only what is displayed. *)
Definition display (u : update) : Prop :=
  match u with
  | setLines _ | setWorkingDirectory _ => True
  | _ => False
  end.

(** A string that does not start with white space. *)
Definition clean (s : jsstring) : Prop :=
  match s with
  | [] => True
  | c :: _ => isWhiteSpace c = false
  end.

(** The store after [executeCommand] has run [command] on the history array
    behind [l]. *)
Definition after_dispatch (l : nat) (command : jsstring) (s : store) : store :=
  if bool_decide (str "history" = first_token command)
  then reversed_in_place l s else s.

(** [a[i]] read from store [s]. *)
Definition entry (l : nat) (i : Z) (s : store) : jsstring :=
  (Array_get l i {| heap := s; queue := [] |}).1.

(** Updates other than [setHistory] leave the store and the reference to
    the history array as they are. *)
Definition keeps_history (u : update) : Prop :=
  match u with
  | setHistory _ => False
  | _ => True
  end.

(** The history cursor is -1 or an index of the history array. *)
Definition cursor_in_range (r : state * store) : Prop :=
  (-1 <= historyIndex r.1 < Z.of_nat (length (history_of r)))%Z.

(** Typing [c] into the input element and pressing Enter. *)
Definition Enter : event := onKeyDown {| key := str "Enter"; ctrlKey := false |}.

Definition submit (c : jsstring) : list event := [onChange c; Enter].

Definition submit_all (cs : list jsstring) : list event :=
  concat (submit <$> cs).

Definition ArrowUp : event := onKeyDown {| key := str "ArrowUp"; ctrlKey := false |}.
Definition ArrowDown : event := onKeyDown {| key := str "ArrowDown"; ctrlKey := false |}.
Definition Tab : event := onKeyDown {| key := str "Tab"; ctrlKey := false |}.
Definition Ctrl_L : event := onKeyDown {| key := str "l"; ctrlKey := true |}.

(** The clear shortcut in the words of the specification: the transcript
    becomes a single empty prompt line, and nothing else changes. *)
Definition reset_transcript (r : state * store) : state * store :=
  ({| lines := [prompt]; currentInput := currentInput r.1;
      history := history r.1; historyIndex := historyIndex r.1;
      workingDirectory := workingDirectory r.1 |}, r.2).

(** Sixty different commands, the fifty-fifth of which is [history]. *)
Definition numbered (n : nat) : jsstring := str ("c" +:+ pretty n).

Definition sixty : list jsstring :=
  (numbered <$> seq 1 54) ++ [str "history"] ++ (numbered <$> seq 56 5).

End Terminal.

(* ===================================================================== *)
(** * The generate endpoint (backend/main.go)                             *)
(* ===================================================================== *)

Module Generate.

Local Open Scope string_scope.

(** ** Request and response types *)

Record ScriptRequest := { Prompt : string }.

Record ScriptResponse := { Script : string }.

(** The body of an answer: a [gin.H{"error": msg}], a script, or no body
    at all. *)
Inductive payload :=
  | H_error (msg : string)
  | Generated (r : ScriptResponse)
  | No_body.

Record response := { status : nat; body : payload }.

Inductive request_body :=
  | Malformed
  | JObject (prompt : Backend.json_member).

(** [c.ShouldBindJSON(&req)] for [ScriptRequest], as for the execute
    endpoint: [binding:"required"] refuses a missing or empty [prompt]. *)
Definition ShouldBindJSON (b : request_body) : string + ScriptRequest :=
  match b with
  | Malformed => inl "invalid character"
  | JObject Backend.JOther =>
      inl "json: cannot unmarshal into Go struct field ScriptRequest.prompt of type string"
  | JObject Backend.Missing =>
      inl "Key: 'ScriptRequest.Prompt' Error:Field validation for 'Prompt' failed on the 'required' tag"
  | JObject (Backend.JString s) =>
      if decide (s = "") then
        inl "Key: 'ScriptRequest.Prompt' Error:Field validation for 'Prompt' failed on the 'required' tag"
      else inr {| Prompt := s |}
  end.

(** The request sent to the model.  The two [float64] settings are kept as
    the decimal fractions written in the source. *)
Record Part := { Text : string }.

Record Content := { Role : string; Parts : list Part }.

Record GenerationConfig := {
  Temperature : QArith_base.Q;
  TopK : Z;
  TopP : QArith_base.Q;
  MaxOutputTokens : Z
}.

Record GeminiRequest := {
  Contents : list Content;
  Config : GenerationConfig
}.

(** The answer of the model: each candidate is given by the texts of the
    parts of its content. *)
Record GeminiResponse := { Candidates : list (list string) }.

(** The error object of the model. *)
Record GeminiError := { Code : Z; Message : string; Status : string }.

Record http_request := {
  Method : string;
  URL : string;
  Header : list (string * string);
  Body : string
}.

Record http_response := {
  StatusCode : nat;
  ReadAll : option string          (* None: reading the body fails *)
}.

(** ** The world the handler acts on *)

Record world := {
  sent : list http_request;        (* requests handed to the client *)
  open_bodies : nat                (* response bodies not closed yet *)
}.

(** The network and the JSON library, as far as the handler asks them. *)
Record Net := {
  Marshal : GeminiRequest -> option string;           (* None: error *)
  NewRequest_error : string -> bool;                  (* by URL *)
  Do : http_request -> option http_response;          (* None: error *)
  Unmarshal_error : string -> option GeminiError;     (* None: error *)
  Unmarshal_response : string -> option GeminiResponse
}.

(** ** A Go function body over this world *)

Record frame := {
  the_world : world;
  deferred : list (world -> world);
  written : list response          (* what each call of c.JSON wrote *)
}.

Inductive flow (A : Type) :=
  | Next (a : A)
  | Returned
  | Panicked.
Arguments Next {A} a.
Arguments Returned {A}.
Arguments Panicked {A}.

Definition Go (A : Type) : Type := frame -> flow A * frame.

#[export] Instance Go_ret : MRet Go := fun A a f => (Next a, f).
#[export] Instance Go_bind : MBind Go :=
  fun A B k m f =>
    match m f with
    | (Next a, f') => k a f'
    | (Returned, f') => (Returned, f')
    | (Panicked, f') => (Panicked, f')
    end.

Definition return_ : Go unit := fun f => (Returned, f).

Definition defer (g : world -> world) : Go unit :=
  fun f => (Next tt, {| the_world := the_world f;
                        deferred := g :: deferred f;
                        written := written f |}).

Definition on_world {A} (g : world -> A * world) : Go A :=
  fun f => let '(a, w') := g (the_world f) in
           (Next a, {| the_world := w'; deferred := deferred f;
                       written := written f |}).

(** ** Writing the answer

    [c.JSON(code, obj)] is [c.Render(code, render.JSON{obj})]: gin sets
    the status of its writer, and then writes either the header alone,
    when the status allows no body, or the header and the body.  The
    header goes through [WriteHeader] of [net/http], which panics on a
    code that has not three digits. *)

(** The status of gin's writer before any is set. *)
Definition defaultStatus : nat := 200.

(** [responseWriter.WriteHeader(code)] of gin, nothing being written yet:
    [if code > 0 && w.status != code { w.status = code }]. *)
Definition WriteHeader (now code : nat) : nat :=
  if (0 <? code)%nat then code else now.

(** [bodyAllowedForStatus(status)] of gin. *)
Definition bodyAllowedForStatus (status : nat) : bool :=
  if ((100 <=? status) && (status <=? 199))%nat then false
  else if (status =? 204)%nat then false
  else if (status =? 304)%nat then false
  else true.

(** [checkWriteHeaderCode(code)] of [net/http] panics when
    [code < 100 || code > 999]. *)
Definition checkWriteHeaderCode_panics (code : nat) : bool :=
  ((code <? 100) || (999 <? code))%nat.

(** What [c.JSON(code, obj)] writes on a writer that has written nothing:
    [None] when [WriteHeader] of [net/http] panics. *)
Definition rendered (code : nat) (p : payload) : option response :=
  let status := WriteHeader defaultStatus code in
  if bodyAllowedForStatus code then
    if checkWriteHeaderCode_panics status then None
    else Some {| status := status; body := p |}
  else Some {| status := status; body := No_body |}.

Definition wrote (f : frame) (r : response) : frame :=
  {| the_world := the_world f; deferred := deferred f;
     written := written f ++ [r] |}.

(** [c.JSON(code, obj)].  Once the header is written the status stays
    what it is, and a body that is allowed is written after what is
    there. *)
Definition JSON (code : nat) (p : payload) : Go unit :=
  fun f =>
    match written f with
    | [] =>
        match rendered code p with
        | Some r => (Next tt, wrote f r)
        | None => (Panicked, f)
        end
    | first :: _ =>
        (Next tt, wrote f {| status := status first;
                             body := if bodyAllowedForStatus code then p
                                     else No_body |})
    end.

(** The answer of a handler that called [c.JSON] exactly once. *)
Definition answer_of (log : list response) : option response :=
  match log with
  | [r] => Some r
  | _ => None
  end.

Definition enter (w : world) : frame :=
  {| the_world := w; deferred := []; written := [] |}.

(** Running a handler: what the calls of [c.JSON] wrote, and the world it
    leaves; the deferred calls run when the handler returns and when it
    panics. *)
Definition calls (m : Go unit) (w : world) : list response * world :=
  let '(_, f) := m (enter w) in
  (written f, foldl (fun w d => d w) (the_world f) (deferred f)).

Definition call (m : Go unit) (w : world) : option response * world :=
  (answer_of (calls m w).1, (calls m w).2).

(** Whether the handler is left by a panic. *)
Definition panics (m : Go unit) (w : world) : bool :=
  match (m (enter w)).1 with
  | Panicked => true
  | _ => false
  end.

(** [client.Do(httpReq)]: the request goes out; on success the response
    comes with an open body. *)
Definition client_Do (net : Net) (req : http_request) : Go (option http_response) :=
  on_world (fun w =>
    match Do net req with
    | None => (None, {| sent := req :: sent w; open_bodies := open_bodies w |})
    | Some resp => (Some resp, {| sent := req :: sent w; open_bodies := S (open_bodies w) |})
    end).

(** [resp.Body.Close()] *)
Definition Body_Close (w : world) : world :=
  {| sent := sent w; open_bodies := pred (open_bodies w) |}.

(** ** The handler *)

Definition instructions (prompt : string) : string :=
  "You are an expert in writing shell scripts for Linux systems.
Generate a practical, secure, and efficient shell script based on this request: "
  +:+ prompt +:+ "

Please include:
1. Helpful comments explaining what the script does
2. Proper error handling
3. Input validation where appropriate

Format the response as a bash script within markdown code blocks, like this:
```bash
#!/bin/bash
# script content here
```".

Definition geminiReq (req : ScriptRequest) : GeminiRequest := {|
  Contents := [ {| Role := "user";
                   Parts := [ {| Text := instructions (Prompt req) |} ] |} ];
  Config := {| Temperature := QArith_base.Qmake 7 10; TopK := 40;
               TopP := QArith_base.Qmake 95 100;
               MaxOutputTokens := 2048 |} |}.

Definition apiUrl (apiKey : string) : string :=
  "https://generativelanguage.googleapis.com/v1beta/models/gemini-1.5-flash-latest:generateContent?key="
  +:+ apiKey.

Definition httpReq (apiKey jsonData : string) : http_request :=
  {| Method := "POST"; URL := apiUrl apiKey;
     Header := [("Content-Type", "application/json")];
     Body := jsonData |}.

Definition handleGenerateScript (net : Net) (apiKey : string) (c : request_body) : Go unit :=
  match ShouldBindJSON c with
  | inl err =>
      JSON 400 (H_error err) ;;
      return_
  | inr req =>
      match Marshal net (geminiReq req) with
      | None =>
          JSON 500 (H_error "Failed to create request") ;;
          return_
      | Some jsonData =>
          if NewRequest_error net (apiUrl apiKey) then
            JSON 500 (H_error "Failed to create request") ;;
            return_
          else
            r ← client_Do net (httpReq apiKey jsonData);
            match r with
            | None =>
                JSON 500 (H_error "Failed to send request to AI") ;;
                return_
            | Some resp =>
                defer Body_Close ;;
                match ReadAll resp with
                | None =>
                    JSON 500 (H_error "Failed to read AI response") ;;
                    return_
                | Some body =>
                    if decide (StatusCode resp ≠ 200) then
                      match Unmarshal_error net body with
                      | Some geminiError =>
                          if decide (Message geminiError ≠ "") then
                            JSON (StatusCode resp)
                                 (H_error ("AI API error: " +:+ Message geminiError)) ;;
                            return_
                          else
                            JSON (StatusCode resp) (H_error "AI API error") ;;
                            return_
                      | None =>
                          JSON (StatusCode resp) (H_error "AI API error") ;;
                          return_
                      end
                    else
                      match Unmarshal_response net body with
                      | None =>
                          JSON 500 (H_error "Failed to parse AI response") ;;
                          return_
                      | Some geminiResp =>
                          match Candidates geminiResp with
                          | (script :: _) :: _ =>
                              JSON 200 (Generated {| Script := script |})
                          | _ =>
                              JSON 500 (H_error "Empty response from AI") ;;
                              return_
                          end
                      end
                end
            end
      end
  end.

Definition serve (net : Net) (apiKey : string) (c : request_body) (w : world)
  : option response * world :=
  call (handleGenerateScript net apiKey c) w.

(** What the calls of [c.JSON] wrote while one request was served. *)
Definition answers (net : Net) (apiKey : string) (c : request_body) (w : world)
  : list response :=
  (calls (handleGenerateScript net apiKey c) w).1.

(** Whether serving the request ends in a panic. *)
Definition panicked (net : Net) (apiKey : string) (c : request_body) (w : world)
  : bool :=
  panics (handleGenerateScript net apiKey c) w.

(** ** Values used in the statements below *)

(** A network on which everything works and the model answers with
    status [code] and the body [body], decoded as [answer] or [problem]. *)
Definition plain_net (code : nat) (body : string)
    (answer : option GeminiResponse) (problem : option GeminiError) : Net := {|
  Marshal := fun _ => Some "{}";
  NewRequest_error := fun _ => false;
  Do := fun _ => Some {| StatusCode := code; ReadAll := Some body |};
  Unmarshal_error := fun _ => problem;
  Unmarshal_response := fun _ => answer
|}.

Definition quiet : world := {| sent := []; open_bodies := 0 |}.

End Generate.

(* ===================================================================== *)
(** * The terminal in the application: handle calls and local storage     *)
(* ===================================================================== *)

Module Session.
Import Terminal.

(** ** Calls on the handle *)

(** What a call on the handle makes of the transcript. *)
Definition after_call (ls : list line) (c : ref_call) : list line :=
  match c with
  | addOutput text kind => ls ++ [{| content := text; type := kind |}]
  | clear => [prompt]
  end.

Definition after_calls (ls : list line) (cs : list ref_call) : list line :=
  foldl after_call ls cs.

(** The update a call on the handle queues. *)
Definition call_update (c : ref_call) : update :=
  match c with
  | addOutput text kind =>
      setLines (fun prev => prev ++ [{| content := text; type := kind |}])
  | clear => setLines (fun _ => [prompt])
  end.

(** The [onExecute] that [App] gives the terminal: it announces the
    command on the terminal, through the handle. *)
Definition App_onExecute : option (jsstring -> list ref_call) :=
  Some (fun command =>
          [addOutput (str "Executing: " ++ command ++ str "
") output]).

(** [handleScriptExecution] of [App], called by the dialog with a script. *)
Definition App_handleScriptExecution (script : jsstring) : event :=
  handle (addOutput (str "Executing script:
" ++ script ++ str "
") output).

(** The calls [onExecute] makes on the handle for a command. *)
Definition calls_for (onExecute : option (jsstring -> list ref_call))
    (command : jsstring) : list ref_call :=
  match onExecute with
  | Some f => f command
  | None => []
  end.

(** An update that keeps the lines of the transcript and may add some. *)
Definition appending (u : update) : Prop :=
  match u with
  | setLines f => forall prev, exists new, f prev = prev ++ new
  | _ => True
  end.

(** The line that echoes a submitted input. *)
Definition echo (st : state) (typed : jsstring) : line :=
  {| content := workingDirectory st ++ str " $ " ++ typed; type := input |}.

(** ** Local storage

    The item [terminalHistory] is absent or holds the JSON text of an
    array of strings; it is kept here as the array that text denotes
    ([JSON.parse] of [JSON.stringify] of an array of strings is an equal,
    new array). *)
Record session := {
  view : state * store;
  terminalHistory : option (list jsstring)
}.

(** The effect with dependency [history]: after a render in which the
    history state is another array than in the render before, the array
    is written to local storage. *)
Definition save_effect (before after : state * store)
    (stored : option (list jsstring)) : option (list jsstring) :=
  if decide (history after.1 = history before.1) then stored
  else Some (history_of after).

(** Mounting: the first render has an empty history; the first effect reads
    local storage and, when there is an item, queues [setHistory] with the
    parsed array; the second effect writes the history of the first
    render; the queued update is then rendered, and the second effect runs
    again when the history state changed. *)
Definition mount (initialWorkingDirectory : jsstring)
    (stored : option (list jsstring)) : session :=
  let first := initial initialWorkingDirectory [] in
  let loaded := match stored with
                | Some savedHistory => [setHistory (fun _ => savedHistory)]
                | None => []
                end in
  let stored1 := Some (history_of first) in
  let second := render first.1 {| heap := first.2; queue := loaded |} in
  {| view := second; terminalHistory := save_effect first second stored1 |}.

Section Component.
Variable onExecute : option (jsstring -> list ref_call).

Definition session_step (σ : session) (ev : event) : session :=
  let after := step onExecute (view σ) ev in
  {| view := after;
     terminalHistory := save_effect (view σ) after (terminalHistory σ) |}.

Definition session_run (σ : session) (evs : list event) : session :=
  foldl session_step σ evs.

End Component.

(** The history array is allocated, and local storage holds its elements. *)
Definition persisted (σ : session) : Prop :=
  history (view σ).1 < next (view σ).2
  /\ terminalHistory σ = Some (history_of (view σ)).

(** A submission that does not run the [history] built-in. *)
Definition plain (c : jsstring) : Prop :=
  truthy (trim c) = true /\ bool_decide (str "history" = first_token c) = false.

(** A new session in the home directory, with nothing saved. *)
Definition fresh : state * store := initial (str "~") [].

(** The session after the commands [a] and [b]. *)
Definition after_a_b : state * store :=
  run None fresh (submit_all [str "a"; str "b"]).

End Session.

(* ===================================================================== *)
(** * The script dialog (ScriptModal component): taking the script out     *)
(* ===================================================================== *)

Module Dialog.
Import Terminal.

(** The first occurrence of [pat] in [s]: the text before it and the text
    after it. *)
Fixpoint cut (pat s : jsstring) : option (jsstring * jsstring) :=
  if startsWith s pat then Some ([], drop (length pat) s)
  else match s with
       | [] => None
       | c :: s' =>
           match cut pat s' with
           | Some (before, after) => Some (c :: before, after)
           | None => None
           end
       end.

Definition opener : jsstring := str "```bash
".

Definition fence : jsstring := str "```".

(** [handleSubmit] takes the script out of the generated text:
    [data.script.match(/```bash\n([\s\S]*?)```/)], and then the trimmed
    group when there is a match, the whole text otherwise.  The match
    starts at the first [```bash] line that has a [```] after it; the lazy
    group ends at the first such [```].  When the first [```bash] line has
    none after it, no later one has, since a later one would itself begin
    with one. *)
Definition cleanScript (script : jsstring) : jsstring :=
  match cut opener script with
  | Some (_, rest) =>
      match cut fence rest with
      | Some (group, _) => trim group
      | None => script
      end
  | None => script
  end.

(** [pat] occurs nowhere in [s]. *)
Definition without (pat s : jsstring) : Prop :=
  forall x y, s ≠ x ++ pat ++ y.

End Dialog.

(* ===================================================================== *)
(** * Further values for the statements about the execute endpoint         *)
(* ===================================================================== *)

Module ExecuteSamples.
Import Backend.

Local Open Scope string_scope.

(** An operating system on which [chmod] fails. *)
Definition failing_chmod : OS := {|
  CreateTemp_name := fun _ => Some "/tmp/script-3.sh";
  Write_error := None;
  Close_error := false;
  Chmod_error := true;
  Remove_error := false;
  bash := fun _ fs => {| files_after := fs; stdout := ""; stderr := ""; ended := exit_status 0 |}
|}.

End ExecuteSamples.

(* ===================================================================== *)
(** * Properties of the execute endpoint                                  *)
(* ===================================================================== *)

Module BackendFacts.
Import Backend.

Local Open Scope string_scope.

Lemma materialize_steps (name script : string) (fs : gmap string node) :
  alter (on_file (fun f => {| data := data f; mode := mode_0755 |})) name
    (alter (on_file (fun f => {| data := script; mode := mode f |})) name
       (<[name := regular {| data := ""; mode := mode_0600 |}]> fs))
  = materialized name script fs.
Proof.
  unfold materialized. apply map_eq. intros p.
  destruct (decide (name = p)) as [->|Hne].
  - rewrite lookup_alter_eq, lookup_alter_eq, !lookup_insert_eq. reflexivity.
  - rewrite lookup_alter_ne, lookup_alter_ne, !lookup_insert_ne by done. reflexivity.
Qed.

Lemma bind_script (script : string) :
  script ≠ "" -> ShouldBindJSON (JObject (JString script)) = inr {| Script := script |}.
Proof. intros H. simpl. destruct (decide (script = "")); congruence. Qed.

(** Serving a request whose four preparation steps succeed: the child is
    run on the materialized file, and the answer depends on how it ended. *)
Lemma serve_reaches_child (os : OS) (script name : string) (w : world) :
  script ≠ "" ->
  CreateTemp_name os (files w) = Some name ->
  Write_error os = None ->
  Close_error os = false ->
  Chmod_error os = false ->
  let r := bash os ["bash"; name] (materialized name script (files w)) in
  serve os (JObject (JString script)) w =
    (Some {| status := 200;
             body := Result
               match Run_error (ended r) with
               | Some err => {| Success := false; Output := stdout r;
                                Error := "Script execution failed: " +:+ err +:+ "
" +:+ stderr r |}
               | None => {| Success := true; Output := stdout r; Error := "" |}
               end |},
     os_Remove os name (after_Run os name script w)).
Proof.
  intros Hs Hc Hw Hcl Hm r.
  unfold serve, call, calls, handleExecuteScript.
  rewrite (bind_script _ Hs).
  unfold mbind, Go_bind, bind, os_CreateTemp, file_Write, file_Close, os_Chmod,
    cmd_Run, on_world, defer, when, JSON, return_; simpl.
  rewrite Hc; simpl. rewrite Hw; simpl. rewrite Hcl; simpl. rewrite Hm; simpl.
  rewrite materialize_steps. unfold after_Run. subst r. cbn [files].
  destruct (ended (bash os ["bash"; name] (materialized name script (files w))))
    as [[|n]|sig|msg] eqn:E; simpl; rewrite ?E; simpl;
    unfold with_files; simpl; rewrite ?materialize_steps; reflexivity.
Qed.

Lemma failure_has_error (t : termination) :
  script_level_failure t -> Run_error t = Some (Error_text t).
Proof. destruct t as [[|n]| |]; simpl; intros H; try reflexivity; tauto. Qed.

(** C1. When the child exits with a status other than 0 or is killed by a
    signal, the answer is HTTP 200 with a result whose [Success] is false,
    whose [Output] is the captured standard output, and whose [Error] is
    the fixed prefix, the text of the termination, a newline and the
    captured standard error; the [error] key is in the JSON object. *)
Theorem C1_script_failure_is_a_result (os : OS) (script name : string) (w : world) :
  script ≠ "" ->
  CreateTemp_name os (files w) = Some name ->
  Write_error os = None ->
  Close_error os = false ->
  Chmod_error os = false ->
  let r := bash os ["bash"; name] (materialized name script (files w)) in
  script_level_failure (ended r) ->
  let answer := {| Success := false; Output := stdout r;
                   Error := "Script execution failed: " +:+ Error_text (ended r) +:+ "
" +:+ stderr r |} in
  (serve os (JObject (JString script)) w).1
    = Some {| status := 200; body := Result answer |}
  ∧ "error" ∈ json_keys (Result answer).
Proof.
  intros Hs Hc Hw Hcl Hm r Hfail answer. split.
  - rewrite (serve_reaches_child os script name w Hs Hc Hw Hcl Hm). simpl.
    fold r. rewrite (failure_has_error _ Hfail). reflexivity.
  - unfold json_keys, answer; simpl.
    destruct (decide (stdout r = "")); simpl;
      rewrite !elem_of_cons; auto.
Qed.

(** The third testable property: standard output, then standard error,
    then [exit 1]. *)
Lemma C1_witness :
  (serve (plain_os "partial
" "boom
" (exit_status 1)) (JObject (JString "echo partial; echo boom >&2; exit 1")) no_files).1
  = Some {| status := 200;
            body := Result {| Success := false; Output := "partial
";
                              Error := "Script execution failed: exit status 1
boom
" |} |}.
Proof.
  refine (proj1 (C1_script_failure_is_a_result
            (plain_os _ _ (exit_status 1)) "echo partial; echo boom >&2; exit 1"
            "/tmp/script-1.sh" no_files _ _ _ _ _ _)).
  - discriminate.
  - reflexivity.
  - reflexivity.
  - reflexivity.
  - reflexivity.
  - simpl. discriminate.
Defined.

(** ** Removing the temporary file *)

Lemma spawned_os_Remove (os : OS) (name : string) (w : world) :
  spawned (os_Remove os name w) = spawned w.
Proof.
  unfold os_Remove. destruct (files w !! name) as [[f|[|e es]]|];
    destruct (Remove_error os); reflexivity.
Qed.

Lemma os_Remove_other (os : OS) (name p : string) (w : world) :
  p ≠ name -> files (os_Remove os name w) !! p = files w !! p.
Proof.
  intros Hp. unfold os_Remove. destruct (files w !! name) as [[f|[|e es]]|];
    destruct (Remove_error os); simpl; try reflexivity; by rewrite lookup_delete_ne.
Qed.

(** After [os.Remove] the name is gone, unless the system refused or a
    directory that is not empty is there. *)
Lemma os_Remove_cases (os : OS) (name : string) (w : world) :
  files (os_Remove os name w) !! name = None
  \/ Remove_error os = true
  \/ exists e es, files (os_Remove os name w) !! name = Some (directory (e :: es))
                  /\ files w !! name = Some (directory (e :: es)).
Proof.
  unfold os_Remove. destruct (files w !! name) as [[f|[|e es]]|] eqn:E.
  - destruct (Remove_error os); [by right; left|left; apply lookup_delete_eq].
  - destruct (Remove_error os); [by right; left|left; apply lookup_delete_eq].
  - right. right. exists e, es. by split.
  - destruct (Remove_error os); [by right; left|left; apply lookup_delete_eq].
Qed.

Lemma os_Remove_regular (os : OS) (name : string) (f : file) (w : world) :
  files w !! name = Some (regular f) ->
  os_Remove os name w = if Remove_error os then w else with_files (delete name) w.
Proof. intros E. unfold os_Remove. by rewrite E. Qed.

(** The world after a failed preparation step: the new file is still a
    regular file when [os.Remove] is called. *)
Lemma serve_preparation_failure (os : OS) (script name : string) (w : world) :
  script ≠ "" ->
  CreateTemp_name os (files w) = Some name ->
  is_Some (Write_error os) \/ Close_error os = true \/ Chmod_error os = true ->
  exists msg f,
    answers os (JObject (JString script)) w = [{| status := 500; body := H_error msg |}]
    /\ (serve os (JObject (JString script)) w).1
       = Some {| status := 500; body := H_error msg |}
    /\ (serve os (JObject (JString script)) w).2
       = if Remove_error os
         then with_files (insert name (regular f)) w
         else with_files (fun fs => delete name (<[name := regular f]> fs)) w.
Proof.
  intros Hs Hc Hfail.
  unfold answers, serve, call, calls, handleExecuteScript. rewrite (bind_script _ Hs).
  unfold mbind, Go_bind, bind, os_CreateTemp, file_Write, file_Close, os_Chmod,
    cmd_Run, on_world, defer, when, JSON, return_; simpl.
  rewrite Hc; simpl.
  assert (forall g : file -> file, forall f : file,
            alter (on_file g) name (<[name := regular f]> (files w))
            = <[name := regular (g f)]> (files w)) as Halter.
  { intros g f. apply map_eq. intros p. destruct (decide (name = p)) as [<-|Hne].
    - by rewrite lookup_alter_eq, !lookup_insert_eq.
    - by rewrite lookup_alter_ne, !lookup_insert_ne. }
  assert (forall f : file,
            os_Remove os name (with_files (insert name (regular f)) w)
            = if Remove_error os
              then with_files (insert name (regular f)) w
              else with_files (fun fs => delete name (<[name := regular f]> fs)) w)
    as Hremove.
  { intros f. rewrite (os_Remove_regular os name f); [reflexivity|].
    simpl. apply lookup_insert_eq. }
  destruct (Write_error os) as [n|]; simpl.
  { eexists _, _. split; [reflexivity|]. split; [reflexivity|].
    unfold with_files at 1 2; simpl. rewrite Halter. apply Hremove. }
  destruct (Close_error os); simpl.
  { eexists _, _. split; [reflexivity|]. split; [reflexivity|].
    unfold with_files at 1 2; simpl. rewrite Halter. apply Hremove. }
  destruct (Chmod_error os); simpl.
  { eexists _, _. split; [reflexivity|]. split; [reflexivity|].
    unfold with_files at 1 2; simpl. rewrite Halter. apply Hremove. }
  destruct Hfail as [[? ?]|[?|?]]; discriminate.
Qed.

(** C2, as stated, fails: the child of [squatting_os] puts a directory
    with one entry where its script was; [os.Remove] fails on it, the
    handler drops the error, and the name is still there when the handler
    has returned. *)
Lemma C2_counterexample :
  ShouldBindJSON (JObject (JString "rm $0; mkdir $0; touch $0/x"))
    = inr {| Script := "rm $0; mkdir $0; touch $0/x" |}
  /\ CreateTemp_name squatting_os (files no_files) = Some "/tmp/script-7.sh"
  /\ files (serve squatting_os (JObject (JString "rm $0; mkdir $0; touch $0/x")) no_files).2
       !! "/tmp/script-7.sh" = Some (directory ["x"])
  /\ files (serve squatting_os (JObject (JString "rm $0; mkdir $0; touch $0/x")) no_files).2
       !! "/tmp/script-7.sh" ≠ None.
Proof.
  repeat split; try reflexivity. vm_compute. discriminate.
Qed.

(** C2, amended. Once the temporary file has been created, [os.Remove] is
    called on it when the handler returns, on every path, as the last
    thing that happens; its error is dropped.  So the name is gone
    afterwards, unless the system refused the removal, or the child was
    started and left a directory that is not empty under the name. *)
Theorem C2_temp_file_removed_unless_remove_fails (os : OS) (c : request_body)
    (req : ExecuteScriptRequest) (name : string) (w : world) :
  ShouldBindJSON c = inr req ->
  CreateTemp_name os (files w) = Some name ->
  (exists before : world, (serve os c w).2 = os_Remove os name before)
  /\ (files (serve os c w).2 !! name = None
      \/ Remove_error os = true
      \/ (exists e es,
            files (serve os c w).2 !! name = Some (directory (e :: es))
            /\ spawned (serve os c w).2 = ["bash"; name] :: spawned w)).
Proof.
  intros Hb Hc.
  assert (c = JObject (JString (Script req)) /\ Script req ≠ "") as [-> Hs].
  { destruct c as [|[|s|]]; simpl in Hb; try discriminate.
    destruct (decide (s = "")); [discriminate|]. by injection Hb as <-. }
  destruct (Write_error os) as [n|] eqn:Hw; [|destruct (Close_error os) eqn:Hcl;
    [|destruct (Chmod_error os) eqn:Hm]].
  1-3: destruct (serve_preparation_failure os (Script req) name w Hs Hc)
         as (msg & f & _ & _ & ->);
       [rewrite ?Hw; eauto|];
       (split;
        [exists (with_files (insert name (regular f)) w);
         rewrite (os_Remove_regular os name f) by apply lookup_insert_eq;
         reflexivity
        |destruct (Remove_error os);
         [by right; left|left; simpl; apply lookup_delete_eq]]).
  rewrite (serve_reaches_child os (Script req) name w Hs Hc Hw Hcl Hm). simpl.
  split; [by eexists|].
  destruct (os_Remove_cases os name (after_Run os name (Script req) w))
    as [H|[H|(e & es & H & Hbefore)]]; [by left|by right; left|].
  right. right. exists e, es. split; [exact H|].
  rewrite spawned_os_Remove. revert Hbefore. unfold after_Run.
  destruct (ended _); simpl; try reflexivity.
  unfold materialized. rewrite lookup_insert_eq. discriminate.
Qed.

Lemma C2_witness :
  (exists before : world,
     (serve stubborn_os (JObject (JString "kill -9 $$")) no_files).2
     = os_Remove stubborn_os "/tmp/script-7.sh" before)
  /\ (files (serve stubborn_os (JObject (JString "kill -9 $$")) no_files).2
        !! "/tmp/script-7.sh" = None
      \/ Remove_error stubborn_os = true
      \/ (exists e es,
            files (serve stubborn_os (JObject (JString "kill -9 $$")) no_files).2
              !! "/tmp/script-7.sh" = Some (directory (e :: es))
            /\ spawned (serve stubborn_os (JObject (JString "kill -9 $$")) no_files).2
               = ["bash"; "/tmp/script-7.sh"] :: spawned no_files)).
Proof.
  apply (C2_temp_file_removed_unless_remove_fails stubborn_os
           (JObject (JString "kill -9 $$"))
           {| Script := "kill -9 $$" |} "/tmp/script-7.sh" no_files);
    reflexivity.
Defined.

(** The three failures of the preparation steps: each is answered with
    status 500 and its own message, and no child is started. *)
Lemma preparation_failures (os : OS) (script name : string) (w : world) :
  script ≠ "" ->
  CreateTemp_name os (files w) = Some name ->
  let answer msg := Some {| status := 500; body := H_error msg |} in
  let r := serve os (JObject (JString script)) w in
  (is_Some (Write_error os) ->
     r.1 = answer "Failed to write script to file" /\ spawned r.2 = spawned w)
  /\ (Write_error os = None -> Close_error os = true ->
     r.1 = answer "Failed to close script file after writing" /\ spawned r.2 = spawned w)
  /\ (Write_error os = None -> Close_error os = false -> Chmod_error os = true ->
     r.1 = answer "Failed to make script executable" /\ spawned r.2 = spawned w).
Proof.
  intros Hs Hc answer r. subst r.
  unfold serve, call, calls, handleExecuteScript. rewrite (bind_script _ Hs).
  unfold mbind, Go_bind, bind, os_CreateTemp, file_Write, file_Close, os_Chmod,
    cmd_Run, on_world, defer, when, JSON, return_; simpl.
  rewrite Hc; simpl.
  split; [|split].
  - intros [n ->]. simpl. rewrite spawned_os_Remove. by split.
  - intros -> ->. simpl. rewrite spawned_os_Remove. by split.
  - intros -> -> ->. simpl. rewrite spawned_os_Remove. by split.
Qed.

(** A request that does not bind is answered 400 and leaves the world as it
    was: no file, no child. *)
Lemma unbound_request_rejected (os : OS) (c : request_body) (err : string) (w : world) :
  ShouldBindJSON c = inl err ->
  serve os c w = (Some {| status := 400; body := H_error err |}, w).
Proof.
  intros Hb. unfold serve, call, calls, handleExecuteScript. rewrite Hb.
  destruct w; reflexivity.
Qed.

(** C3. A request whose [script] member is missing or empty is answered
    with status 400, and the files and the list of spawned children are
    what they were before the request. *)
Theorem C3_empty_script_rejected (os : OS) (w : world) :
  (∃ msg, serve os (JObject Missing) w = (Some {| status := 400; body := H_error msg |}, w))
  ∧ (∃ msg, serve os (JObject (JString "")) w = (Some {| status := 400; body := H_error msg |}, w)).
Proof.
  split; eexists; apply unbound_request_rejected; reflexivity.
Qed.

(** ** The output as the client reads it *)

Lemma coerced_valid (bs : list N) (inside : nat) :
  valid_from inside bs = true -> coerced inside bs = bs.
Proof.
  revert inside. induction bs as [|b r IH]; intros inside; [reflexivity|].
  cbn [valid_from coerced]. destruct inside as [|k].
  - destruct (rune_width (b :: r)) as [n|]; [|discriminate].
    intros H. by rewrite (IH _ H).
  - intros H. by rewrite (IH _ H).
Qed.

Lemma of_bytes_bytes (s : string) : of_bytes (bytes s) = s.
Proof.
  unfold of_bytes, bytes. induction s as [|a s IH]; [reflexivity|].
  simpl. rewrite Ascii.ascii_N_embedding. f_equal. exact IH.
Qed.

(** Valid UTF-8 reaches the client byte for byte. *)
Lemma received_valid (s : string) : utf8_valid s = true -> received s = s.
Proof.
  unfold utf8_valid, received. intros H.
  rewrite (coerced_valid _ _ H). apply of_bytes_bytes.
Qed.

(** C4, as stated, fails: a child that writes the byte FF and exits with
    status 0 is answered with [Success] true, and the [output] the client
    reads is U+FFFD (the bytes EF BF BD), not the byte written. *)
Lemma C4_counterexample :
  let answer := {| Success := true; Output := byte_FF; Error := "" |} in
  ended (bash (plain_os byte_FF "" (exit_status 0)) ["bash"; "/tmp/script-1.sh"]
           (materialized "/tmp/script-1.sh" "printf '\377'" (files no_files)))
    = exit_status 0
  /\ (serve (plain_os byte_FF "" (exit_status 0))
            (JObject (JString "printf '\377'")) no_files).1
     = Some {| status := 200; body := Result answer |}
  /\ output_field (Result answer) = Some (of_bytes [239; 191; 189]%N)
  /\ output_field (Result answer) ≠ Some byte_FF.
Proof.
  repeat split; try reflexivity. vm_compute. discriminate.
Qed.

(** C4, amended. When the child exits with status 0, the answer is HTTP 200
    with a result whose [Success] is true and whose [Output] is the
    captured standard output; [Error] is empty and the [error] key is not
    in the JSON object.  The [output] the client reads is absent when
    nothing was written, and otherwise what was written with every byte
    that begins no valid UTF-8 encoding replaced by U+FFFD: exactly the
    bytes written when they are valid UTF-8. *)
Theorem C4_exit_zero_output_as_utf8 (os : OS) (script name : string) (w : world) :
  script ≠ "" ->
  CreateTemp_name os (files w) = Some name ->
  Write_error os = None ->
  Close_error os = false ->
  Chmod_error os = false ->
  let r := bash os ["bash"; name] (materialized name script (files w)) in
  ended r = exit_status 0 ->
  let answer := {| Success := true; Output := stdout r; Error := "" |} in
  (serve os (JObject (JString script)) w).1
    = Some {| status := 200; body := Result answer |}
  ∧ ("error" ∉ json_keys (Result answer))
  ∧ (output_field (Result answer)
     = if decide (stdout r = "") then None else Some (received (stdout r)))
  ∧ (utf8_valid (stdout r) = true -> stdout r ≠ "" ->
     output_field (Result answer) = Some (stdout r)).
Proof.
  intros Hs Hc Hw Hcl Hm r Hz answer. split; [|split; [|split]].
  - rewrite (serve_reaches_child os script name w Hs Hc Hw Hcl Hm). simpl.
    fold r. rewrite Hz. reflexivity.
  - unfold json_keys, answer; simpl.
    destruct (decide (stdout r = "")); simpl;
      rewrite !not_elem_of_cons; repeat split; try discriminate; apply not_elem_of_nil.
  - reflexivity.
  - intros Hv Hne. unfold output_field, answer; simpl.
    destruct (decide (stdout r = "")); [contradiction|].
    by rewrite received_valid.
Qed.

Lemma C4_witness :
  (serve (plain_os "hello
" "" (exit_status 0)) (JObject (JString "echo hello")) no_files).1
  = Some {| status := 200;
            body := Result {| Success := true; Output := "hello
"; Error := "" |} |}
  ∧ output_field (Result {| Success := true; Output := "hello
"; Error := "" |}) = Some "hello
".
Proof.
  pose proof (C4_exit_zero_output_as_utf8
            (plain_os "hello
" "" (exit_status 0)) "echo hello"
            "/tmp/script-1.sh" no_files) as H.
  destruct H as (H1 & _ & _ & H4);
    [discriminate|reflexivity|reflexivity|reflexivity|reflexivity|reflexivity|].
  split; [exact H1|]. apply H4; [reflexivity|discriminate].
Defined.

End BackendFacts.

(* ===================================================================== *)
(** * Properties of the terminal session                                  *)
(* ===================================================================== *)

Module TerminalFacts.
Import Terminal.

(** ** Strings

    [trim] leaves a trimmed string as it is, so the second [trim], in
    [executeCommand], of a command that [handleKeyDown] has trimmed changes
    nothing. *)

Lemma startsWith_nil (s : jsstring) : startsWith s [] = true.
Proof. destruct s; reflexivity. Qed.

Lemma split_nonempty (sep : N) (s : jsstring) : split sep s ≠ [].
Proof.
  destruct s as [|c s]; simpl; [discriminate|].
  destruct (c =? sep)%N; [discriminate|].
  destruct (split sep s); discriminate.
Qed.

Lemma trimStart_clean (s : jsstring) : clean (trimStart s).
Proof.
  induction s as [|c s IH]; simpl; [exact I|].
  destruct (isWhiteSpace c) eqn:E; [exact IH|exact E].
Qed.

Lemma trimStart_of_clean (s : jsstring) : clean s -> trimStart s = s.
Proof. destruct s as [|c s]; simpl; [reflexivity|]. intros ->. reflexivity. Qed.

Lemma trimStart_suffix (s : jsstring) : exists ws, s = ws ++ trimStart s.
Proof.
  induction s as [|c s [ws IH]]; simpl; [by exists []|].
  destruct (isWhiteSpace c).
  - exists (c :: ws). simpl. by rewrite <- IH.
  - by exists [].
Qed.

Lemma clean_prefix (a b : jsstring) : clean (a ++ b) -> clean a.
Proof. destruct a; simpl; auto. Qed.

Lemma trim_idempotent (s : jsstring) : trim (trim s) = trim s.
Proof.
  unfold trim.
  destruct (trimStart_suffix (reverse (trimStart s))) as [ws Hws].
  set (u := trimStart (reverse (trimStart s))) in *.
  assert (clean (reverse u)) as Hu.
  { apply (clean_prefix _ (reverse ws)). rewrite <- reverse_app, <- Hws.
    rewrite reverse_involutive. apply trimStart_clean. }
  rewrite (trimStart_of_clean _ Hu), reverse_involutive.
  rewrite (trimStart_of_clean u) by apply trimStart_clean. reflexivity.
Qed.

Lemma first_token_trim (s : jsstring) : first_token (trim s) = first_token s.
Proof. unfold first_token. by rewrite trim_idempotent. Qed.

(** ** The command table *)

Lemma builtin_cases (st : state) (cmd : jsstring) :
  builtin st cmd =
    if bool_decide (str "clear" = cmd) then Some clear_command
    else if bool_decide (str "help" = cmd) then Some help_command
    else if bool_decide (str "pwd" = cmd) then Some (pwd_command st)
    else if bool_decide (str "cd" = cmd) then Some cd_command
    else if bool_decide (str "history" = cmd) then Some (history_command st)
    else None.
Proof. reflexivity. Qed.

(** ** Updates that touch only what is displayed *)

Lemma render_display (us : list update) :
  Forall display us ->
  forall (st : state) (s : store),
  exists ls wd,
    foldl (fun r u => apply_update u r) (st, s) us =
      ({| lines := ls; currentInput := currentInput st; history := history st;
          historyIndex := historyIndex st; workingDirectory := wd |}, s).
Proof.
  induction 1 as [|u us Hu _ IH]; intros st s.
  - exists (lines st), (workingDirectory st). destruct st; reflexivity.
  - destruct u; simpl in Hu; try contradiction; simpl.
    + destruct (IH {| lines := next_lines (lines st); currentInput := currentInput st;
                      history := history st; historyIndex := historyIndex st;
                      workingDirectory := workingDirectory st |} s) as (ls & wd & ->).
      exists ls, wd. reflexivity.
    + destruct (IH {| lines := lines st; currentInput := currentInput st;
                      history := history st; historyIndex := historyIndex st;
                      workingDirectory := v |} s) as (ls & wd & ->).
      exists ls, wd. reflexivity.
Qed.

(** Closing a goal [exists us, Forall display us /\ _ = _] by reading the
    queued updates off the equation. *)
Ltac queued :=
  eexists; (split; cycle 1); [reflexivity | repeat constructor].
Ltac nothing_queued p :=
  exists []; split; [constructor | destruct p; simpl; by rewrite ?app_nil_r].

Section Component.
Variable onExecute : option (jsstring -> list ref_call).

Lemma handle_calls_effect (cs : list ref_call) (p : pending) :
  exists us, Forall display us /\
    (mapM useImperativeHandle cs p).2 = {| heap := heap p; queue := queue p ++ us |}.
Proof.
  revert p. induction cs as [|c cs IH]; intros p.
  - exists []. split; [constructor|]. destruct p; simpl. by rewrite app_nil_r.
  - simpl. unfold mbind, Handler_bind.
    destruct (useImperativeHandle c p) as [x p1] eqn:E1.
    destruct (IH p1) as (us & Hus & E2).
    destruct (mapM useImperativeHandle cs p1) as [y p2]. simpl in *. subst p2.
    destruct c; simpl in E1; injection E1 as _ <-; simpl.
    + eexists (_ :: us). split; cycle 1.
      * rewrite <- app_assoc. reflexivity.
      * constructor; [exact I|exact Hus].
    + eexists (_ :: us). split; cycle 1.
      * rewrite <- app_assoc. reflexivity.
      * constructor; [exact I|exact Hus].
Qed.

(** What [executeCommand] does: it reverses the history array when the
    command word is [history], and queues updates of the display only. *)
Lemma executeCommand_effect (st : state) (command : jsstring) (p : pending) :
  exists us, Forall display us /\
    (executeCommand onExecute st command p).2 =
      {| heap := if bool_decide (str "history" = first_token command)
                 then reversed_in_place (history st) (heap p) else heap p;
         queue := queue p ++ us |}.
Proof.
  unfold executeCommand, first_token.
  destruct (split 32 (trim command)) as [|cmd args] eqn:Es.
  { nothing_queued p. }
  simpl hd. rewrite builtin_cases.
  destruct (bool_decide (str "clear" = cmd)) eqn:E1;
    [apply bool_decide_eq_true in E1 as <-|];
  [|destruct (bool_decide (str "help" = cmd)) eqn:E2;
    [apply bool_decide_eq_true in E2 as <-|]];
  [| |destruct (bool_decide (str "pwd" = cmd)) eqn:E3;
    [apply bool_decide_eq_true in E3 as <-|]];
  [| | |destruct (bool_decide (str "cd" = cmd)) eqn:E4;
    [apply bool_decide_eq_true in E4 as <-|]];
  [| | | |destruct (bool_decide (str "history" = cmd)) eqn:E5;
    [apply bool_decide_eq_true in E5 as <-|]].
  - (* clear *) queued.
  - (* help *) queued.
  - (* pwd *) simpl. unfold mbind, Handler_bind, mret, Handler_ret.
    destruct (truthy (workingDirectory st)); [queued | nothing_queued p].
  - (* cd *) queued.
  - (* history *) simpl. unfold mbind, Handler_bind, Array_reverse, Array_join. simpl.
    destruct (truthy _); [queued | nothing_queued p].
  - (* not built in *)
    destruct onExecute as [f|]; [|nothing_queued p].
    unfold mbind, Handler_bind.
    destruct (handle_calls_effect (f command) p) as (us & Hus & E).
    destruct (mapM useImperativeHandle (f command) p) as [y p2]. simpl in *.
    exists us. split; [exact Hus|]. exact E.
Qed.

(** ** Enter *)

(** Enter on an input that is not blank: the history becomes a new array,
    built from the command and the array as [executeCommand] left it. *)
Lemma step_Enter_key_submitted (ctrl : bool) (st : state) (s : store) :
  truthy (trim (currentInput st)) = true ->
  let command := trim (currentInput st) in
  let s' := after_dispatch (history st) command s in
  exists ls wd,
    step onExecute (st, s) (onKeyDown {| key := str "Enter"; ctrlKey := ctrl |}) =
      ({| lines := ls; currentInput := str ""; history := next s';
          historyIndex := -1; workingDirectory := wd |},
       {| arrays := <[next s' := take 50 (command :: read (history st) s')]> (arrays s');
          next := S (next s') |}).
Proof.
  intros Ht command s'.
  unfold step, handler_of, handleKeyDown. simpl key.
  rewrite bool_decide_true by reflexivity. rewrite Ht. fold command.
  unfold mbind, Handler_bind, enqueue at 1 2 3. simpl.
  match goal with |- context [executeCommand _ _ _ ?p] =>
    destruct (executeCommand_effect st command p) as (us & Hus & E);
    destruct (executeCommand onExecute st command p) as [x p1] end.
  simpl in E. subst p1. fold (after_dispatch (history st) command s). fold s'.
  unfold enqueue, render. simpl.
  rewrite !foldl_app. simpl.
  match goal with |- context [foldl _ (?st1, ?s1) us] =>
    destruct (render_display us Hus st1 s1) as (ls & wd & ->) end.
  simpl. eexists _, _. reflexivity.
Qed.

Lemma step_Enter_submitted (st : state) (s : store) :
  truthy (trim (currentInput st)) = true ->
  let command := trim (currentInput st) in
  let s' := after_dispatch (history st) command s in
  exists ls wd,
    step onExecute (st, s) Enter =
      ({| lines := ls; currentInput := str ""; history := next s';
          historyIndex := -1; workingDirectory := wd |},
       {| arrays := <[next s' := take 50 (command :: read (history st) s')]> (arrays s');
          next := S (next s') |}).
Proof. apply step_Enter_key_submitted. Qed.

(** Enter on a blank input does nothing. *)
Lemma step_Enter_key_blank (ctrl : bool) (st : state) (s : store) :
  truthy (trim (currentInput st)) = false ->
  step onExecute (st, s) (onKeyDown {| key := str "Enter"; ctrlKey := ctrl |}) = (st, s).
Proof.
  intros Ht. unfold step, handler_of, handleKeyDown. simpl key.
  rewrite bool_decide_true by reflexivity. rewrite Ht. reflexivity.
Qed.

Lemma step_Enter_blank (st : state) (s : store) :
  truthy (trim (currentInput st)) = false ->
  step onExecute (st, s) Enter = (st, s).
Proof. apply step_Enter_key_blank. Qed.

(** The input element changed. *)
Lemma step_onChange (st : state) (s : store) (v : jsstring) :
  step onExecute (st, s) (onChange v) =
    ({| lines := lines st; currentInput := v; history := history st;
        historyIndex := historyIndex st; workingDirectory := workingDirectory st |}, s).
Proof. reflexivity. Qed.

(** ** The arrow keys *)

Lemma step_ArrowUp_key (ctrl : bool) (st : state) (s : store) :
  step onExecute (st, s) (onKeyDown {| key := str "ArrowUp"; ctrlKey := ctrl |}) =
    if (historyIndex st <? Z.of_nat (length (read (history st) s)) - 1)%Z
    then ({| lines := lines st;
             currentInput := entry (history st) (historyIndex st + 1) s;
             history := history st; historyIndex := historyIndex st + 1;
             workingDirectory := workingDirectory st |}, s)
    else (st, s).
Proof.
  unfold step, handler_of, handleKeyDown. simpl key.
  rewrite bool_decide_false by (vm_compute; discriminate).
  rewrite bool_decide_true by reflexivity.
  unfold mbind, Handler_bind, Array_length. simpl.
  destruct (_ <? _)%Z; [reflexivity|]. destruct st; reflexivity.
Qed.

Lemma step_ArrowDown_key (ctrl : bool) (st : state) (s : store) :
  step onExecute (st, s) (onKeyDown {| key := str "ArrowDown"; ctrlKey := ctrl |}) =
    if (0 <? historyIndex st)%Z
    then ({| lines := lines st;
             currentInput := entry (history st) (historyIndex st - 1) s;
             history := history st; historyIndex := historyIndex st - 1;
             workingDirectory := workingDirectory st |}, s)
    else if (historyIndex st =? 0)%Z
    then ({| lines := lines st; currentInput := str "";
             history := history st; historyIndex := -1;
             workingDirectory := workingDirectory st |}, s)
    else (st, s).
Proof.
  unfold step, handler_of, handleKeyDown. simpl key.
  rewrite !bool_decide_false by (vm_compute; discriminate).
  rewrite bool_decide_true by reflexivity.
  destruct (0 <? _)%Z; [reflexivity|].
  destruct (_ =? 0)%Z; [reflexivity|]. destruct st; reflexivity.
Qed.

(** ** Events that are not a submission *)

Lemma display_keeps_history (us : list update) :
  Forall display us -> Forall keeps_history us.
Proof.
  intros H. eapply Forall_impl; [exact H|]. intros [] Hu; simpl in *; tauto.
Qed.

Lemma render_keeps_history (us : list update) :
  Forall keeps_history us ->
  forall (st : state) (s : store),
  exists st',
    foldl (fun r u => apply_update u r) (st, s) us = (st', s)
    /\ history st' = history st
    /\ (Forall display us -> historyIndex st' = historyIndex st).
Proof.
  induction 1 as [|u us Hu _ IH]; intros st s.
  - exists st. by repeat split.
  - destruct u; simpl in Hu; try contradiction; simpl;
      match goal with |- context [foldl _ (?st1, s) us] =>
        destruct (IH st1 s) as (st' & -> & Hh & Hi) end;
      exists st'; (split; [reflexivity|]); (split; [exact Hh|]);
      intros Hd; inversion Hd as [|? ? Hu' Hus']; subst;
      try contradiction; by rewrite Hi.
Qed.

(** Tab, the clear shortcut, any other key that is not Enter or an arrow,
    a change of the input and a call on the handle leave the store, the
    history array and the cursor as they are. *)
Lemma step_other_event (st : state) (s : store) (ev : event) :
  match ev with
  | onKeyDown e =>
      key e ≠ str "Enter" /\ key e ≠ str "ArrowUp" /\ key e ≠ str "ArrowDown"
  | _ => True
  end ->
  (step onExecute (st, s) ev).2 = s
  /\ history (step onExecute (st, s) ev).1 = history st
  /\ historyIndex (step onExecute (st, s) ev).1 = historyIndex st.
Proof.
  destruct ev as [[k ctrl]|v|c]; intros Hk; simpl in Hk.
  - destruct Hk as (Hk & Hup & Hdown).
    unfold step, handler_of, handleKeyDown. cbn [key ctrlKey].
    rewrite !bool_decide_false by done.
    destruct (bool_decide (k = str "Tab")).
    { destruct (find _ _); by repeat split. }
    destruct (ctrl && bool_decide (k = str "l")); [|by repeat split].
    match goal with |- context [executeCommand _ _ _ ?p] =>
      destruct (executeCommand_effect st (str "clear") p) as (us & Hus & E) end.
    unfold render. rewrite E. simpl.
    destruct (render_keeps_history us (display_keeps_history us Hus) st s)
      as (st' & -> & Hh & Hi). repeat split; [exact Hh|exact (Hi Hus)].
  - by repeat split.
  - destruct c; by repeat split.
Qed.

(** A key other than Enter, a change of the input and a call on the handle
    leave the store, and so the history array, as they are. *)
Lemma step_keeps_history (st : state) (s : store) (ev : event) :
  match ev with onKeyDown e => key e ≠ str "Enter" | _ => True end ->
  (step onExecute (st, s) ev).2 = s
  /\ history (step onExecute (st, s) ev).1 = history st.
Proof.
  intros Hk.
  assert (forall k ctrl, ev = onKeyDown {| key := k; ctrlKey := ctrl |} ->
            k = str "ArrowUp" \/ k = str "ArrowDown" ->
            (step onExecute (st, s) ev).2 = s
            /\ history (step onExecute (st, s) ev).1 = history st) as Harrow.
  { intros k ctrl -> [->| ->].
    - rewrite step_ArrowUp_key. by destruct (_ <? _)%Z.
    - rewrite step_ArrowDown_key. destruct (0 <? _)%Z; [done|]. by destruct (_ =? 0)%Z. }
  destruct ev as [[k ctrl]|v|c]; simpl in Hk.
  - destruct (decide (k = str "ArrowUp")) as [Hup|Hup]; [by eapply Harrow; eauto|].
    destruct (decide (k = str "ArrowDown")) as [Hdown|Hdown]; [by eapply Harrow; eauto|].
    by destruct (step_other_event st s (onKeyDown {| key := k; ctrlKey := ctrl |})) as (? & ? & ?).
  - by destruct (step_other_event st s (onChange v)) as (? & ? & ?).
  - by destruct (step_other_event st s (handle c)) as (? & ? & ?).
Qed.

(** ** The history array after a submission *)

Lemma run_submit (r : state * store) (c : jsstring) :
  run onExecute r (submit c) = step onExecute (step onExecute r (onChange c)) Enter.
Proof. reflexivity. Qed.

Lemma run_app (r : state * store) (evs evs' : list event) :
  run onExecute r (evs ++ evs') = run onExecute (run onExecute r evs) evs'.
Proof. apply foldl_app. Qed.

Lemma read_reversed (l : nat) (s : store) :
  read l (reversed_in_place l s) = reverse (read l s).
Proof.
  unfold read, reversed_in_place; simpl. rewrite lookup_alter_eq.
  destruct (arrays s !! l); reflexivity.
Qed.

Lemma read_after_dispatch (l : nat) (command : jsstring) (s : store) :
  read l (after_dispatch l command s) =
    if bool_decide (str "history" = first_token command)
    then reverse (read l s) else read l s.
Proof.
  unfold after_dispatch. destruct (bool_decide _); [apply read_reversed|reflexivity].
Qed.

(** A submission builds the new history from the command and the old
    array; when the command word is [history], from the old array as the
    built-in left it, reversed. *)
Lemma history_after_submit (r : state * store) (c : jsstring) :
  truthy (trim c) = true ->
  history_of (run onExecute r (submit c)) =
    take 50 (trim c ::
             (if bool_decide (str "history" = first_token c)
              then reverse (history_of r) else history_of r)).
Proof.
  intros Ht. destruct r as [st s]. rewrite run_submit, step_onChange.
  match goal with |- context [step _ (?st1, _) Enter] =>
    destruct (step_Enter_submitted st1 s Ht) as (ls & wd & ->) end.
  unfold history_of, read at 1. simpl. rewrite lookup_insert_eq. simpl.
  rewrite read_after_dispatch, first_token_trim. reflexivity.
Qed.

Lemma history_after_blank (r : state * store) (c : jsstring) :
  truthy (trim c) = false ->
  history_of (run onExecute r (submit c)) = history_of r.
Proof.
  intros Ht. destruct r as [st s]. rewrite run_submit, step_onChange.
  rewrite step_Enter_blank by exact Ht. reflexivity.
Qed.

(** After a submission the history has at most 50 entries. *)
Lemma history_bounded (r : state * store) (c : jsstring) :
  truthy (trim c) = true ->
  length (history_of (run onExecute r (submit c))) <= 50.
Proof.
  intros Ht. rewrite (history_after_submit r c Ht). rewrite length_take. lia.
Qed.

Lemma take_app_take {A} (n : nat) (a b : list A) :
  take n (a ++ take n b) = take n (a ++ b).
Proof.
  rewrite !take_app, take_take. f_equal. f_equal. lia.
Qed.

(** Submissions whose command word is never [history] keep the history
    most recent first: the trimmed commands, newest first, in front of
    what was there, cut at 50. *)
Lemma history_after_plain_submissions (cs : list jsstring) :
  Forall (fun c => truthy (trim c) = true
                   /\ bool_decide (str "history" = first_token c) = false) cs ->
  forall r : state * store,
  length (history_of r) <= 50 ->
  history_of (run onExecute r (submit_all cs)) =
    take 50 (reverse (trim <$> cs) ++ history_of r).
Proof.
  induction 1 as [|c cs [Ht Hn] _ IH]; intros r Hr.
  - simpl. by rewrite take_ge.
  - change (submit_all (c :: cs)) with (submit c ++ submit_all cs).
    rewrite run_app, IH by (apply history_bounded, Ht).
    rewrite (history_after_submit r c Ht), Hn.
    rewrite take_app_take, fmap_cons, reverse_cons, <- app_assoc. reflexivity.
Qed.

End Component.

(** ** The claims about the history buffer *)

(** What the [history] built-in does, for every state and store: its text is
    the array joined oldest position last to first, and the array itself is
    left reversed. *)
Lemma history_execute (st : state) (args : list jsstring) (p : pending) :
  execute (history_command st) args p =
    (join (str "
") (reverse (read (history st) (heap p))),
     {| heap := reversed_in_place (history st) (heap p); queue := queue p |}).
Proof.
  simpl. unfold mbind, Handler_bind, Array_reverse, Array_join. simpl.
  by rewrite read_reversed.
Qed.

(** C5. The claim fails on a sequence that contains the command [history].
    After [a], [b], [history] the buffer is [history; a; b], not most recent
    first.  After the sixty different commands of [sixty], whose fifty-fifth
    is [history], the buffer has 50 entries, but the fifty-fourth command
    is gone while the fifth, which is not among the most recent 50, is
    kept. *)
Theorem C5_history_command_breaks_order :
  history_of (run None (initial (str "~") [])
                (submit_all [str "a"; str "b"; str "history"]))
    = [str "history"; str "a"; str "b"]
  /\ NoDup sixty
  /\ length sixty = 60
  /\ Forall (fun c => truthy (trim c) = true) sixty
  /\ (let h := history_of (run None (initial (str "~") []) (submit_all sixty)) in
      length h = 50 /\ (numbered 54 ∉ h) /\ (numbered 5 ∈ h)).
Proof.
  split; [vm_compute; reflexivity|].
  split; [refine (bool_decide_unpack _ _); vm_compute; exact I|].
  split; [reflexivity|].
  split; [refine (bool_decide_unpack _ _); vm_compute; exact I|].
  split; [vm_compute; reflexivity|].
  split; refine (bool_decide_unpack _ _); vm_compute; exact I.
Qed.

(** C6. The [history] entry of the command table, run on the buffer
    [b; a] that the submissions [a], [b] leave: its text is [a], newline,
    [b], and the stored array is [a; b] afterwards.  The next submission
    is then put in front of the reversed array. *)
Theorem C6_history_builtin_reverses_stored_buffer :
  let r := run None (initial (str "~") []) (submit_all [str "a"; str "b"]) in
  let result := execute (history_command r.1) [] {| heap := r.2; queue := [] |} in
  builtin r.1 (str "history") = Some (history_command r.1)
  /\ history_of r = [str "b"; str "a"]
  /\ result.1 = str "a
b"
  /\ read (history r.1) (heap result.2) = [str "a"; str "b"]
  /\ queue result.2 = [].
Proof.
  repeat split; vm_compute; reflexivity.
Qed.

(** ** The history cursor *)

(** C7, as stated, fails: after a command and Up-arrow the cursor is 0, and
    an edit of the input leaves it at 0. *)
Lemma C7_counterexample :
  let r := run None (initial (str "~") []) (submit (str "ls") ++ [ArrowUp]) in
  historyIndex r.1 = 0%Z
  /\ currentInput r.1 = str "ls"
  /\ historyIndex (step None r (onChange (str "lsx"))).1 ≠ (-1)%Z.
Proof.
  repeat split; vm_compute; discriminate.
Qed.

(** C7, amended. Enter sets the cursor to -1 exactly when the trimmed input
    is not empty, and leaves it otherwise; a change of the input element
    replaces the input and nothing else, the cursor included. *)
Theorem C7_cursor_reset_on_submit_only
    (onExecute : option (jsstring -> list ref_call))
    (st : state) (s : store) (v : jsstring) :
  historyIndex (step onExecute (st, s) Enter).1
    = (if truthy (trim (currentInput st)) then (-1)%Z else historyIndex st)
  /\ step onExecute (st, s) (onChange v)
      = ({| lines := lines st; currentInput := v; history := history st;
            historyIndex := historyIndex st;
            workingDirectory := workingDirectory st |}, s).
Proof.
  split; [|apply step_onChange].
  destruct (truthy (trim (currentInput st))) eqn:Ht.
  - destruct (step_Enter_submitted onExecute st s Ht) as (ls & wd & ->). reflexivity.
  - by rewrite step_Enter_blank.
Qed.

(** ** [pwd] and [cd] *)

(** C8. The [pwd] entry returns the working directory of the render and
    queues nothing; the [cd] entry queues the working directory given by
    its first argument, or [~] when there is none or it is empty, whatever
    the argument is; and after [cd /tmp] and [pwd] the transcript ends with
    the echo of [pwd], the output line [/tmp] and a prompt. *)
Theorem C8_pwd_and_cd
    (onExecute : option (jsstring -> list ref_call))
    (st : state) (s : store) (args : list jsstring) (p : pending) :
  builtin st (str "pwd") = Some (pwd_command st)
  /\ execute (pwd_command st) args p = (workingDirectory st, p)
  /\ builtin st (str "cd") = Some cd_command
  /\ execute cd_command args p
      = (str "", {| heap := heap p;
                    queue := queue p ++ [setWorkingDirectory
                      (match args with
                       | [] => str "~"
                       | a :: _ => if decide (a = []) then str "~" else a
                       end)] |})
  /\ render st (execute cd_command args {| heap := s; queue := [] |}).2
      = ({| lines := lines st; currentInput := currentInput st;
            history := history st; historyIndex := historyIndex st;
            workingDirectory := match args with
                                | [] => str "~"
                                | a :: _ => if decide (a = []) then str "~" else a
                                end |}, s)
  /\ workingDirectory (run onExecute (st, s) (submit (str "cd"))).1 = str "~"
  /\ workingDirectory (run onExecute (st, s) (submit (str "cd /no/such/dir"))).1
      = str "/no/such/dir"
  /\ lines (run onExecute (st, s) (submit (str "cd /tmp") ++ submit (str "pwd"))).1
      = lines st ++
        [ {| content := workingDirectory st ++ str " $ cd /tmp"; type := input |};
          prompt;
          {| content := str "/tmp $ pwd"; type := input |};
          {| content := str "/tmp"; type := output |};
          prompt ].
Proof.
  assert (forall a : jsstring,
            (if truthy a then a else str "~") = (if decide (a = []) then str "~" else a))
    as Htruthy by (intros [|c a]; reflexivity).
  split; [reflexivity|]. split; [reflexivity|]. split; [reflexivity|].
  split; [destruct args; simpl; rewrite ?Htruthy; reflexivity|].
  split; [destruct args; simpl; rewrite ?Htruthy; reflexivity|].
  split; [vm_compute; reflexivity|].
  split; [vm_compute; reflexivity|].
  transitivity
    (((((lines st
         ++ [{| content := workingDirectory st ++ str " $ cd /tmp"; type := input |}])
        ++ [prompt])
       ++ [{| content := str "/tmp $ pwd"; type := input |}])
      ++ [{| content := str "/tmp"; type := output |}])
     ++ [prompt]); [vm_compute; reflexivity|].
  by rewrite <- !app_assoc.
Qed.

(** ** The clear shortcut *)

(** Ctrl+L runs [executeCommand] on the text [clear], which finds the
    [clear] entry of the table; the step it makes, and the render after
    running the entry by itself, are both [reset_transcript]. *)
Lemma Ctrl_L_runs_clear_entry
    (onExecute : option (jsstring -> list ref_call))
    (st : state) (s : store) (args : list jsstring) :
  handler_of onExecute st Ctrl_L = executeCommand onExecute st (str "clear")
  /\ builtin st (str "clear") = Some clear_command
  /\ step onExecute (st, s) Ctrl_L = reset_transcript (st, s)
  /\ render st (execute clear_command args {| heap := s; queue := [] |}).2
      = reset_transcript (st, s).
Proof.
  repeat split; reflexivity.
Qed.

(** ** The cursor stays inside the history array *)

Section Cursor.
Variable onExecute : option (jsstring -> list ref_call).

Lemma step_cursor_in_range (r : state * store) (ev : event) :
  cursor_in_range r -> cursor_in_range (step onExecute r ev).
Proof.
  destruct r as [st s]. unfold cursor_in_range, history_of. intros Hr. simpl in Hr.
  assert (forall r' : state * store,
            r'.2 = s -> history r'.1 = history st -> historyIndex r'.1 = historyIndex st ->
            (-1 <= historyIndex r'.1 < Z.of_nat (length (read (history r'.1) r'.2)))%Z)
    as Hsame by (intros r' -> -> ->; exact Hr).
  destruct ev as [[k ctrl]|v|c].
  - destruct (decide (k = str "Enter")) as [->|Hk].
    { destruct (truthy (trim (currentInput st))) eqn:Ht.
      - destruct (step_Enter_key_submitted onExecute ctrl st s Ht) as (ls & wd & ->).
        unfold read. simpl. rewrite lookup_insert_eq. simpl. lia.
      - rewrite step_Enter_key_blank by exact Ht. exact Hr. }
    destruct (decide (k = str "ArrowUp")) as [->|Hup].
    { rewrite step_ArrowUp_key.
      destruct (_ <? _)%Z eqn:E; [|exact Hr]. apply Z.ltb_lt in E. simpl. lia. }
    destruct (decide (k = str "ArrowDown")) as [->|Hdown].
    { rewrite step_ArrowDown_key.
      destruct (0 <? _)%Z eqn:E; [apply Z.ltb_lt in E; simpl; lia|].
      destruct (_ =? 0)%Z eqn:E0; [apply Z.eqb_eq in E0; simpl; lia|exact Hr]. }
    by destruct (step_other_event onExecute st s (onKeyDown {| key := k; ctrlKey := ctrl |}))
      as (? & ? & ?); [|apply Hsame].
  - by destruct (step_other_event onExecute st s (onChange v)) as (? & ? & ?);
      [|apply Hsame].
  - by destruct (step_other_event onExecute st s (handle c)) as (? & ? & ?);
      [|apply Hsame].
Qed.

(** In every state a session reaches, the cursor is -1 or an index of the
    history array; so an arrow key reads an element of the array. *)
Lemma index_in_range (wd : jsstring) (saved : list jsstring) (evs : list event) :
  let r := run onExecute (initial wd saved) evs in
  cursor_in_range r
  /\ ((historyIndex r.1 <? Z.of_nat (length (history_of r)) - 1)%Z = true ->
      history_of r !! Z.to_nat (historyIndex r.1 + 1)
        = Some (entry (history r.1) (historyIndex r.1 + 1) r.2))
  /\ ((0 <? historyIndex r.1)%Z = true ->
      history_of r !! Z.to_nat (historyIndex r.1 - 1)
        = Some (entry (history r.1) (historyIndex r.1 - 1) r.2)).
Proof.
  intros r.
  assert (cursor_in_range r) as Hr.
  { subst r. induction evs as [|ev evs IH] using rev_ind.
    - unfold cursor_in_range, history_of, read. simpl.
      rewrite lookup_singleton_eq. simpl. lia.
    - unfold run. rewrite foldl_app. simpl. by apply step_cursor_in_range. }
  split; [exact Hr|].
  assert (forall i : Z, (0 <= i < Z.of_nat (length (history_of r)))%Z ->
            history_of r !! Z.to_nat i = Some (entry (history r.1) i r.2)) as Hread.
  { intros i Hi. unfold entry, Array_get. simpl.
    destruct (i <? 0)%Z eqn:E; [apply Z.ltb_lt in E; lia|].
    fold (history_of r).
    destruct (lookup_lt_is_Some_2 (history_of r) (Z.to_nat i)) as [x Hx]; [lia|].
    unfold history_of in *. rewrite Hx. reflexivity. }
  unfold cursor_in_range in Hr.
  split; intros E; apply Z.ltb_lt in E; apply Hread; lia.
Qed.

End Cursor.

(** Typing [clear] and pressing Enter is more than the built-in: the
    command goes into the history and a prompt line is added after the
    reset, so that the transcript is two prompt lines. *)
Remark submitted_clear_leaves_two_prompts
    (onExecute : option (jsstring -> list ref_call)) (st : state) (s : store) :
  lines (run onExecute (st, s) (submit (str "clear"))).1 = [prompt; prompt]
  /\ history_of (run onExecute (st, s) (submit (str "clear")))
      = take 50 (str "clear" :: history_of (st, s)).
Proof.
  split; [vm_compute; reflexivity|].
  rewrite history_after_submit by reflexivity. reflexivity.
Qed.

(** C9, as stated, fails when the built-in is executed the way a user
    executes it, by submitting the text [clear]: from the first state of a
    session Ctrl+L leaves one prompt line and an empty history buffer, the
    submitted command two prompt lines and a history buffer that holds
    [clear]. *)
Lemma C9_counterexample :
  let r := initial (str "~") [] in
  lines (step None r Ctrl_L).1 = [prompt]
  /\ lines (run None r (submit (str "clear"))).1 = [prompt; prompt]
  /\ history_of (step None r Ctrl_L) = []
  /\ history_of (run None r (submit (str "clear"))) = [str "clear"]
  /\ lines (step None r Ctrl_L).1 ≠ lines (run None r (submit (str "clear"))).1
  /\ history_of (step None r Ctrl_L) ≠ history_of (run None r (submit (str "clear"))).
Proof.
  repeat split; vm_compute; first [reflexivity | discriminate].
Qed.

(** C9, amended. Ctrl+L is the call [executeCommand('clear')], which runs
    the [clear] entry of the table and nothing else: in every state the
    transcript becomes the prompt line alone, and the input, the history
    buffer, the cursor, the working directory and the store stay as they
    are.  Submitting the text [clear] runs the same entry inside a
    submission, which does more: the transcript ends as two prompt lines,
    the command goes to the front of the history buffer (cut to 50), the
    input is emptied and the cursor reset; the working directory is the
    same after both. *)
Theorem C9_clear_shortcut_runs_clear_entry_only
    (onExecute : option (jsstring -> list ref_call))
    (st : state) (s : store) (args : list jsstring) :
  handler_of onExecute st Ctrl_L = executeCommand onExecute st (str "clear")
  /\ builtin st (str "clear") = Some clear_command
  /\ step onExecute (st, s) Ctrl_L = reset_transcript (st, s)
  /\ render st (execute clear_command args {| heap := s; queue := [] |}).2
      = reset_transcript (st, s)
  /\ lines (step onExecute (st, s) Ctrl_L).1 = [prompt]
  /\ history_of (step onExecute (st, s) Ctrl_L) = history_of (st, s)
  /\ workingDirectory (step onExecute (st, s) Ctrl_L).1 = workingDirectory st
  /\ lines (run onExecute (st, s) (submit (str "clear"))).1 = [prompt; prompt]
  /\ history_of (run onExecute (st, s) (submit (str "clear")))
      = take 50 (str "clear" :: history_of (st, s))
  /\ currentInput (run onExecute (st, s) (submit (str "clear"))).1 = []
  /\ historyIndex (run onExecute (st, s) (submit (str "clear"))).1 = (-1)%Z
  /\ workingDirectory (run onExecute (st, s) (submit (str "clear"))).1
      = workingDirectory st.
Proof.
  destruct (Ctrl_L_runs_clear_entry onExecute st s args) as (H1 & H2 & H3 & H4).
  destruct (submitted_clear_leaves_two_prompts onExecute st s) as [Hl Hh].
  split; [exact H1|]. split; [exact H2|]. split; [exact H3|]. split; [exact H4|].
  rewrite H3.
  split; [reflexivity|]. split; [reflexivity|]. split; [reflexivity|].
  split; [exact Hl|]. split; [exact Hh|].
  repeat split; vm_compute; reflexivity.
Qed.

(** ** Tab *)

Lemma find_first {A} (f : A -> bool) (l : list A) :
  match find f l with
  | Some x => exists i, l !! i = Some x /\ f x = true
                        /\ forall j y, j < i -> l !! j = Some y -> f y = false
  | None => forall y, y ∈ l -> f y = false
  end.
Proof.
  induction l as [|a l IH]; simpl.
  - intros y Hy. by apply elem_of_nil in Hy.
  - destruct (f a) eqn:Ea.
    + exists 0. split; [reflexivity|]. split; [exact Ea|]. intros j y Hj. lia.
    + destruct (find f l) as [x|].
      * destruct IH as (i & Hi & Hx & Hfirst). exists (S i).
        split; [exact Hi|]. split; [exact Hx|].
        intros [|j] y Hj Hy; simpl in Hy; [by injection Hy as <-|].
        apply (Hfirst j); [lia|exact Hy].
      * intros y Hy. apply elem_of_cons in Hy as [->|Hy]; [exact Ea|by apply IH].
Qed.

(** C10. Every name of the table starts with the empty string and [clear]
    is the first entry, so Tab on an empty input sets the input to [clear].
    In general Tab sets the input to the name of the first entry, in table
    order, whose name starts with the lower-cased input, and does nothing
    when there is none. *)
Theorem C10_tab_completes_first_match
    (onExecute : option (jsstring -> list ref_call))
    (st : state) (s : store) :
  (forall c, c ∈ builtInCommands st -> startsWith (name c) [] = true)
  /\ builtInCommands st !! 0 = Some clear_command
  /\ step onExecute
        ({| lines := lines st; currentInput := []; history := history st;
            historyIndex := historyIndex st;
            workingDirectory := workingDirectory st |}, s) Tab
      = ({| lines := lines st; currentInput := str "clear"; history := history st;
            historyIndex := historyIndex st;
            workingDirectory := workingDirectory st |}, s)
  /\ (let typed := toLowerCase (currentInput st) in
      (exists i c,
          builtInCommands st !! i = Some c
          /\ startsWith (name c) typed = true
          /\ (forall j c', j < i -> builtInCommands st !! j = Some c' ->
                           startsWith (name c') typed = false)
          /\ step onExecute (st, s) Tab
              = ({| lines := lines st; currentInput := name c; history := history st;
                    historyIndex := historyIndex st;
                    workingDirectory := workingDirectory st |}, s))
      \/ ((forall c, c ∈ builtInCommands st -> startsWith (name c) typed = false)
          /\ step onExecute (st, s) Tab = (st, s))).
Proof.
  split; [intros c _; apply startsWith_nil|].
  split; [reflexivity|].
  split; [reflexivity|].
  intros typed.
  assert (handleKeyDown onExecute st {| key := str "Tab"; ctrlKey := false |}
          = match find (fun cmd => startsWith (name cmd) typed) (builtInCommands st) with
            | Some suggestion => enqueue (setCurrentInput (name suggestion))
            | None => mret tt
            end) as Hk by reflexivity.
  unfold step, Tab, handler_of. rewrite Hk.
  pose proof (find_first (fun cmd => startsWith (name cmd) typed) (builtInCommands st)) as Hf.
  destruct (find _ (builtInCommands st)) as [c|].
  - left. destruct Hf as (i & Hi & Hc & Hfirst). exists i, c.
    repeat split; [exact Hi|exact Hc|exact Hfirst].
  - right. split; [exact Hf|]. destruct st; reflexivity.
Qed.

End TerminalFacts.

(* ===================================================================== *)
(** * More about the execute endpoint                                     *)
(* ===================================================================== *)

Module ExecuteFacts.
Import Backend BackendFacts ExecuteSamples.

Local Open Scope string_scope.

Lemma bound_request (c : request_body) (req : ExecuteScriptRequest) :
  ShouldBindJSON c = inr req ->
  c = JObject (JString (Script req)) /\ Script req ≠ "".
Proof.
  intros Hb. destruct c as [|[|s|]]; simpl in Hb; try discriminate.
  destruct (decide (s = "")); [discriminate|]. by injection Hb as <-.
Qed.


Lemma serve_create_failure (os : OS) (script : string) (w : world) :
  script ≠ "" ->
  CreateTemp_name os (files w) = None ->
  answers os (JObject (JString script)) w
    = [{| status := 500; body := H_error "Failed to create temporary script file" |}]
  /\ serve os (JObject (JString script)) w
     = (Some {| status := 500;
                body := H_error "Failed to create temporary script file" |}, w).
Proof.
  intros Hs Hc.
  unfold answers, serve, call, calls, handleExecuteScript. rewrite (bind_script _ Hs).
  unfold mbind, Go_bind, bind, os_CreateTemp, on_world, JSON, return_; simpl.
  rewrite Hc. simpl. destruct w; by split.
Qed.




Lemma delete_inserted (name : string) (n : node) (fs : gmap string node) :
  fs !! name = None -> delete name (<[name := n]> fs) = fs.
Proof.
  intros Hn. apply map_eq. intros p. destruct (decide (name = p)) as [<-|Hne].
  - by rewrite lookup_delete_eq.
  - by rewrite lookup_delete_ne, lookup_insert_ne.
Qed.

(** When the temporary file cannot be created, or a later preparation
    step fails, the answer is 500 and no child is started.  The world is
    then what it was before the request, unless [os.Remove] is refused:
    then the temporary file is left, and nothing else is changed.  The
    name [os.CreateTemp] picks is that of no existing file. *)
Theorem failed_preparation_leaves_at_most_the_file (os : OS) (script : string) (w : world) :
  script ≠ "" ->
  (forall name, CreateTemp_name os (files w) = Some name -> files w !! name = None) ->
  CreateTemp_name os (files w) = None \/ is_Some (Write_error os)
    \/ Close_error os = true \/ Chmod_error os = true ->
  exists msg,
    (serve os (JObject (JString script)) w).1
      = Some {| status := 500; body := H_error msg |}
    /\ spawned (serve os (JObject (JString script)) w).2 = spawned w
    /\ match CreateTemp_name os (files w) with
       | Some name =>
           if Remove_error os
           then exists f, files (serve os (JObject (JString script)) w).2
                          = <[name := regular f]> (files w)
           else (serve os (JObject (JString script)) w).2 = w
       | None => (serve os (JObject (JString script)) w).2 = w
       end.
Proof.
  intros Hs Hfresh Hfail.
  destruct (CreateTemp_name os (files w)) as [name|] eqn:Hc; cycle 1.
  { destruct (serve_create_failure os script w Hs Hc) as [_ ->]. by eexists. }
  destruct (serve_preparation_failure os script name w Hs Hc)
    as (msg & f & _ & H1 & H2).
  { destruct Hfail as [?|?]; [discriminate|assumption]. }
  exists msg. split; [exact H1|]. rewrite H2.
  destruct (Remove_error os); simpl.
  - split; [reflexivity|]. by exists f.
  - split; [reflexivity|]. unfold with_files.
    rewrite (delete_inserted name _ _ (Hfresh name eq_refl)). by destruct w.
Qed.

Lemma failed_preparation_leaves_at_most_the_file_witness :
  exists msg,
    (serve failing_chmod (JObject (JString "ls")) no_files).1
      = Some {| status := 500; body := H_error msg |}
    /\ spawned (serve failing_chmod (JObject (JString "ls")) no_files).2
       = spawned no_files
    /\ match CreateTemp_name failing_chmod (files no_files) with
       | Some name =>
           if Remove_error failing_chmod
           then exists f, files (serve failing_chmod (JObject (JString "ls")) no_files).2
                          = <[name := regular f]> (files no_files)
           else (serve failing_chmod (JObject (JString "ls")) no_files).2 = no_files
       | None => (serve failing_chmod (JObject (JString "ls")) no_files).2 = no_files
       end.
Proof.
  apply (failed_preparation_leaves_at_most_the_file failing_chmod "ls" no_files).
  - discriminate.
  - intros name _. apply lookup_empty.
  - right. right. right. reflexivity.
Defined.

(** When the preparation succeeds, [cmd.Run] is given [bash] and the
    temporary name, on a file system that holds the script, byte for byte
    and with mode 0755, under that name, and every other file as it was.
    When the child starts, it is the one child, and afterwards every file
    other than the temporary one is as the child left it; when it cannot
    be started, there is no child and every other file is as before. *)
Theorem handler_touches_only_its_file (os : OS) (script name : string) (w : world) :
  script ≠ "" ->
  CreateTemp_name os (files w) = Some name ->
  Write_error os = None ->
  Close_error os = false ->
  Chmod_error os = false ->
  exists seen : gmap string node,
    seen !! name = Some (regular {| data := script; mode := mode_0755 |})
    /\ (forall p, p ≠ name -> seen !! p = files w !! p)
    /\ match ended (bash os ["bash"; name] seen) with
       | start_failure _ =>
           spawned (serve os (JObject (JString script)) w).2 = spawned w
           /\ (forall p, p ≠ name ->
                 files (serve os (JObject (JString script)) w).2 !! p = files w !! p)
       | _ =>
           spawned (serve os (JObject (JString script)) w).2
             = ["bash"; name] :: spawned w
           /\ (forall p, p ≠ name ->
                 files (serve os (JObject (JString script)) w).2 !! p
                 = files_after (bash os ["bash"; name] seen) !! p)
       end.
Proof.
  intros Hs Hc Hw Hcl Hm.
  exists (materialized name script (files w)).
  rewrite (serve_reaches_child os script name w Hs Hc Hw Hcl Hm). simpl.
  split; [apply lookup_insert_eq|].
  split; [intros p Hp; unfold materialized; by rewrite lookup_insert_ne|].
  rewrite spawned_os_Remove. unfold after_Run.
  destruct (ended _); simpl; (split; [reflexivity|]); intros p Hp;
    rewrite os_Remove_other by exact Hp; simpl; try reflexivity.
  unfold materialized. by rewrite lookup_insert_ne.
Qed.

Lemma handler_touches_only_its_file_witness :
  exists seen : gmap string node,
    seen !! "/tmp/script-7.sh"
      = Some (regular {| data := "kill -9 $$"; mode := mode_0755 |})
    /\ (forall p, p ≠ "/tmp/script-7.sh" -> seen !! p = files no_files !! p)
    /\ match ended (bash stubborn_os ["bash"; "/tmp/script-7.sh"] seen) with
       | start_failure _ =>
           spawned (serve stubborn_os (JObject (JString "kill -9 $$")) no_files).2
             = spawned no_files
           /\ (forall p, p ≠ "/tmp/script-7.sh" ->
                 files (serve stubborn_os (JObject (JString "kill -9 $$")) no_files).2 !! p
                 = files no_files !! p)
       | _ =>
           spawned (serve stubborn_os (JObject (JString "kill -9 $$")) no_files).2
             = ["bash"; "/tmp/script-7.sh"] :: spawned no_files
           /\ (forall p, p ≠ "/tmp/script-7.sh" ->
                 files (serve stubborn_os (JObject (JString "kill -9 $$")) no_files).2 !! p
                 = files_after (bash stubborn_os ["bash"; "/tmp/script-7.sh"] seen) !! p)
       end.
Proof.
  apply (handler_touches_only_its_file stubborn_os "kill -9 $$" "/tmp/script-7.sh" no_files);
    [discriminate|reflexivity..].
Defined.

(** A child that could not be started at all (no [bash] to run) is
    answered like a failed script: status 200, [Success] false, and the
    reason in [Error]. *)
Theorem start_failure_is_answered_200 (os : OS) (script name msg : string) (w : world) :
  script ≠ "" ->
  CreateTemp_name os (files w) = Some name ->
  Write_error os = None ->
  Close_error os = false ->
  Chmod_error os = false ->
  let r := bash os ["bash"; name] (materialized name script (files w)) in
  ended r = start_failure msg ->
  (serve os (JObject (JString script)) w).1
    = Some {| status := 200;
              body := Result {| Success := false; Output := stdout r;
                                Error := "Script execution failed: " +:+ msg +:+ "
" +:+ stderr r |} |}.
Proof.
  intros Hs Hc Hw Hcl Hm r Hr.
  rewrite (serve_reaches_child os script name w Hs Hc Hw Hcl Hm). simpl.
  fold r. rewrite Hr. reflexivity.
Qed.

Lemma start_failure_is_answered_200_witness :
  (serve (plain_os "" "" (start_failure "exec: bash: executable file not found in $PATH"))
         (JObject (JString "ls")) no_files).1
  = Some {| status := 200;
            body := Result {| Success := false; Output := "";
              Error := "Script execution failed: exec: bash: executable file not found in $PATH
" |} |}.
Proof.
  apply (start_failure_is_answered_200
           (plain_os "" "" (start_failure "exec: bash: executable file not found in $PATH"))
           "ls" "/tmp/script-1.sh" "exec: bash: executable file not found in $PATH"
           no_files); [discriminate|reflexivity..].
Defined.

(** An answer that carries a result has status 200, and in it either
    [Success] is true and [Error] is empty, or [Success] is false and
    [Error] is not empty; so the [error] key is in the JSON object exactly
    when [success] is false. *)
Theorem success_xor_error (os : OS) (c : request_body) (w : world)
    (code : nat) (res : ExecuteScriptResponse) :
  (serve os c w).1 = Some {| status := code; body := Result res |} ->
  code = 200
  /\ ((Success res = true /\ Error res = "" /\ "error" ∉ json_keys (Result res))
      \/ (Success res = false /\ Error res ≠ "" /\ "error" ∈ json_keys (Result res))).
Proof.
  destruct (ShouldBindJSON c) as [err|req] eqn:Hb.
  { rewrite (unbound_request_rejected os c err w Hb). discriminate. }
  destruct (bound_request c req Hb) as [-> Hs].
  destruct (CreateTemp_name os (files w)) as [name|] eqn:Hc; cycle 1.
  { destruct (serve_create_failure os _ w Hs Hc) as [_ ->]. discriminate. }
  destruct (Write_error os) as [n|] eqn:Hw; [|destruct (Close_error os) eqn:Hcl;
    [|destruct (Chmod_error os) eqn:Hm]].
  1-3: destruct (serve_preparation_failure os (Script req) name w Hs Hc)
         as (msg & f & _ & -> & _); [rewrite ?Hw; eauto|discriminate].
  rewrite (serve_reaches_child os (Script req) name w Hs Hc Hw Hcl Hm). simpl.
  set (r := bash os ["bash"; name] (materialized name (Script req) (files w))).
  destruct (Run_error (ended r)) as [e|] eqn:He; simpl; intros [= <- <-];
    (split; [reflexivity|]); unfold json_keys; simpl.
  - right. split; [reflexivity|]. split; [discriminate|].
    destruct (decide (stdout r = "")); simpl; rewrite !elem_of_cons; auto.
  - left. split; [reflexivity|]. split; [reflexivity|].
    destruct (decide (stdout r = "")); simpl;
      rewrite !not_elem_of_cons; repeat split; try discriminate; apply not_elem_of_nil.
Qed.

Lemma success_xor_error_witness :
  200 = 200
  /\ ((false = true /\ "Script execution failed: signal: killed
" = "" /\ "error" ∉ json_keys (Result {| Success := false; Output := "";
                                           Error := "Script execution failed: signal: killed
" |}))
      \/ (false = false /\ "Script execution failed: signal: killed
" ≠ "" /\ "error" ∈ json_keys (Result {| Success := false; Output := "";
                                           Error := "Script execution failed: signal: killed
" |}))).
Proof.
  apply (success_xor_error stubborn_os (JObject (JString "kill -9 $$")) no_files 200
           {| Success := false; Output := "";
              Error := "Script execution failed: signal: killed
" |}).
  reflexivity.
Defined.

End ExecuteFacts.

(* ===================================================================== *)
(** * Properties of the generate endpoint                                 *)
(* ===================================================================== *)

Module GenerateFacts.
Import Generate.

Local Open Scope string_scope.

Lemma bind_prompt (prompt : string) :
  prompt ≠ "" ->
  ShouldBindJSON (JObject (Backend.JString prompt)) = inr {| Prompt := prompt |}.
Proof. intros H. simpl. destruct (decide (prompt = "")); congruence. Qed.

Ltac by_cases_on_code :=
  repeat match goal with
  | |- context [Nat.ltb ?a ?b] => destruct (Nat.ltb_spec a b)
  | |- context [Nat.leb ?a ?b] => destruct (Nat.leb_spec a b)
  | |- context [Nat.eqb ?a ?b] => destruct (Nat.eqb_spec a b)
  end; simpl; try lia; try congruence.

(** What one call of [c.JSON] writes, by the status it is given. *)
Lemma rendered_by_status (code : nat) (p : payload) :
  (code = 0 -> rendered code p = Some {| status := 200; body := p |})
  /\ (0 < code < 100 \/ 999 < code -> rendered code p = None)
  /\ (100 <= code <= 199 \/ code = 204 \/ code = 304 ->
      rendered code p = Some {| status := code; body := No_body |})
  /\ (200 <= code <= 999 -> code ≠ 204 -> code ≠ 304 ->
      rendered code p = Some {| status := code; body := p |}).
Proof.
  unfold rendered, WriteHeader, bodyAllowedForStatus, checkWriteHeaderCode_panics,
    defaultStatus.
  repeat split; intros; by_cases_on_code.
Qed.

Lemma rendered_200 (p : payload) :
  rendered 200 p = Some {| status := 200; body := p |}.
Proof. reflexivity. Qed.

Lemma rendered_400 (p : payload) :
  rendered 400 p = Some {| status := 400; body := p |}.
Proof. reflexivity. Qed.

Lemma rendered_500 (p : payload) :
  rendered 500 p = Some {| status := 500; body := p |}.
Proof. reflexivity. Qed.

(** The first call of [c.JSON] in a handler. *)
Lemma JSON_first (code : nat) (p : payload) (w : world) (ds : list (world -> world)) :
  JSON code p {| the_world := w; deferred := ds; written := [] |}
  = match rendered code p with
    | Some r => (Next tt, {| the_world := w; deferred := ds; written := [r] |})
    | None => (Panicked, {| the_world := w; deferred := ds; written := [] |})
    end.
Proof. unfold JSON, wrote; simpl. by destruct (rendered code p). Qed.

#[local] Opaque rendered.

Ltac run_handler :=
  unfold mbind, Go_bind, client_Do, on_world, defer, return_, enter; simpl;
  rewrite ?JSON_first, ?rendered_200, ?rendered_400, ?rendered_500; simpl.

(** Closes a path on which [c.JSON] wrote one answer. *)
Ltac answered Hone :=
  split; [left; by apply Hone
         |split; [reflexivity|first [by left | right; by eexists]]].

(** A request that reaches the model and gets an answer whose body can
    be read. *)
Lemma upstream_outcome (net : Net) (apiKey prompt jsonData body : string)
    (up : http_response) (w : world) :
  prompt ≠ "" ->
  Marshal net (geminiReq {| Prompt := prompt |}) = Some jsonData ->
  NewRequest_error net (apiUrl apiKey) = false ->
  Do net (httpReq apiKey jsonData) = Some up ->
  ReadAll up = Some body ->
  let last :=
    if decide (StatusCode up ≠ 200) then
      rendered (StatusCode up)
        (H_error
           match Unmarshal_error net body with
           | Some e => if decide (Message e ≠ "")
                       then "AI API error: " +:+ Message e
                       else "AI API error"
           | None => "AI API error"
           end)
    else
      Some match Unmarshal_response net body with
           | None => {| status := 500; body := H_error "Failed to parse AI response" |}
           | Some g =>
               match Candidates g with
               | (script :: _) :: _ =>
                   {| status := 200; body := Generated {| Script := script |} |}
               | _ => {| status := 500; body := H_error "Empty response from AI" |}
               end
           end in
  calls (handleGenerateScript net apiKey (JObject (Backend.JString prompt))) w
    = (match last with Some r => [r] | None => [] end,
       {| sent := httpReq apiKey jsonData :: sent w; open_bodies := open_bodies w |})
  /\ panicked net apiKey (JObject (Backend.JString prompt)) w
     = match last with Some _ => false | None => true end.
Proof.
  intros Hp Hm Hn Hd Hr.
  unfold panicked, panics, calls, handleGenerateScript.
  rewrite (bind_prompt _ Hp), Hm, Hn. run_handler.
  rewrite Hd; simpl. rewrite Hr.
  destruct (decide (StatusCode up ≠ 200)); simpl.
  - destruct (Unmarshal_error net body) as [e|]; [destruct (decide (Message e ≠ ""))|];
      run_handler;
      match goal with |- context [rendered ?c ?p] => destruct (rendered c p) end;
      simpl; by split.
  - destruct (Unmarshal_response net body) as [g|]; [|run_handler; by split].
    destruct (Candidates g) as [|[|script parts] rest]; run_handler; by split.
Qed.

Lemma serve_of_calls (net : Net) (apiKey : string) (c : request_body) (w w' : world)
    (log : list response) :
  calls (handleGenerateScript net apiKey c) w = (log, w') ->
  serve net apiKey c w = (answer_of log, w') /\ answers net apiKey c w = log.
Proof. intros H. unfold serve, call, answers. by rewrite H. Qed.

(** When the model answers 200 with a body that decodes, the script sent
    back is the text of the first part of the first candidate, as it is
    (an empty text too); further parts and candidates are ignored, and an
    answer without a candidate, or whose first candidate has no part, is
    answered 500. *)
Theorem first_part_is_the_script (net : Net) (apiKey prompt jsonData body : string)
    (up : http_response) (g : GeminiResponse) (w : world) :
  prompt ≠ "" ->
  Marshal net (geminiReq {| Prompt := prompt |}) = Some jsonData ->
  NewRequest_error net (apiUrl apiKey) = false ->
  Do net (httpReq apiKey jsonData) = Some up ->
  ReadAll up = Some body ->
  StatusCode up = 200 ->
  Unmarshal_response net body = Some g ->
  (serve net apiKey (JObject (Backend.JString prompt)) w).1 =
    Some match Candidates g with
         | (script :: _) :: _ =>
             {| status := 200; body := Generated {| Script := script |} |}
         | _ => {| status := 500; body := H_error "Empty response from AI" |}
         end.
Proof.
  intros Hp Hm Hn Hd Hr Hc Hg.
  destruct (upstream_outcome net apiKey prompt jsonData body up w Hp Hm Hn Hd Hr)
    as [Hcalls _].
  destruct (serve_of_calls _ _ _ _ _ _ Hcalls) as [-> _]. simpl.
  rewrite Hc, Hg. destruct (decide (200 ≠ 200)); [congruence|reflexivity].
Qed.

Lemma first_part_is_the_script_witness :
  (serve (plain_net 200 "{...}"
            (Some {| Candidates := [["echo hi"; "ignored"]; ["other"]] |}) None)
         "KEY" (JObject (Backend.JString "say hi")) quiet).1
  = Some {| status := 200; body := Generated {| Script := "echo hi" |} |}.
Proof.
  apply (first_part_is_the_script
           (plain_net 200 "{...}"
              (Some {| Candidates := [["echo hi"; "ignored"]; ["other"]] |}) None)
           "KEY" "say hi" "{}" "{...}"
           {| StatusCode := 200; ReadAll := Some "{...}" |}
           {| Candidates := [["echo hi"; "ignored"]; ["other"]] |} quiet);
    [discriminate|reflexivity..].
Defined.



(** When the model answers with a status other than 200, that status is
    handed to [c.JSON] with the error message: the message of the model's
    error object when the body decodes to one with a message, a fixed
    message otherwise.  What is written depends on the status: a status
    from 200 to 999 other than 204 and 304 is the status of the answer,
    with the message; with a status from 100 to 199, 204 or 304 the
    answer has that status and no body; with status 0 the answer has
    status 200 and the message; with any other status, one of less or
    more than three digits, writing the header panics and the handler
    writes no answer. *)
Theorem upstream_status_reaches_the_writer (net : Net)
    (apiKey prompt jsonData body : string) (up : http_response) (w : world) :
  prompt ≠ "" ->
  Marshal net (geminiReq {| Prompt := prompt |}) = Some jsonData ->
  NewRequest_error net (apiUrl apiKey) = false ->
  Do net (httpReq apiKey jsonData) = Some up ->
  ReadAll up = Some body ->
  StatusCode up ≠ 200 ->
  let c := JObject (Backend.JString prompt) in
  let code := StatusCode up in
  let msg := match Unmarshal_error net body with
             | Some e => if decide (Message e = "") then "AI API error"
                         else "AI API error: " +:+ Message e
             | None => "AI API error"
             end in
  (200 < code <= 999 -> code ≠ 204 -> code ≠ 304 ->
     answers net apiKey c w = [{| status := code; body := H_error msg |}]
     /\ (serve net apiKey c w).1 = Some {| status := code; body := H_error msg |})
  /\ (100 <= code <= 199 \/ code = 204 \/ code = 304 ->
      answers net apiKey c w = [{| status := code; body := No_body |}]
      /\ (serve net apiKey c w).1 = Some {| status := code; body := No_body |})
  /\ (code = 0 ->
      answers net apiKey c w = [{| status := 200; body := H_error msg |}]
      /\ (serve net apiKey c w).1 = Some {| status := 200; body := H_error msg |})
  /\ (0 < code < 100 \/ 999 < code ->
      answers net apiKey c w = []
      /\ (serve net apiKey c w).1 = None
      /\ panicked net apiKey c w = true).
Proof.
  intros Hp Hm Hn Hd Hr Hc c code msg.
  destruct (upstream_outcome net apiKey prompt jsonData body up w Hp Hm Hn Hd Hr)
    as [Hcalls Hpanic].
  destruct (serve_of_calls _ _ _ _ _ _ Hcalls) as [Hserve Hanswers].
  fold c in Hserve, Hanswers, Hpanic. rewrite Hserve, Hanswers, Hpanic. simpl.
  destruct (decide (StatusCode up ≠ 200)); [|contradiction].
  assert (match Unmarshal_error net body with
          | Some e => if decide (Message e ≠ "") then "AI API error: " +:+ Message e
                      else "AI API error"
          | None => "AI API error"
          end = msg) as ->.
  { unfold msg. destruct (Unmarshal_error net body) as [e|]; [|reflexivity].
    destruct (decide (Message e ≠ "")), (decide (Message e = ""));
      try reflexivity; tauto. }
  destruct (rendered_by_status code (H_error msg)) as (H0 & H1 & H2 & H3).
  fold code.
  split; [|split; [|split]]; intros H.
  - intros H204 H304. rewrite H3 by lia. by split.
  - rewrite (H2 H). by split.
  - rewrite (H0 H). by split.
  - rewrite (H1 H). by repeat split.
Qed.

Lemma upstream_status_reaches_the_writer_witness :
  (serve (plain_net 429 "{...}" None
            (Some {| Code := 429; Message := "quota"; Status := "RESOURCE_EXHAUSTED" |}))
         "KEY" (JObject (Backend.JString "say hi")) quiet).1
  = Some {| status := 429; body := H_error "AI API error: quota" |}.
Proof.
  refine (proj2 (proj1 (upstream_status_reaches_the_writer
           (plain_net 429 "{...}" None
              (Some {| Code := 429; Message := "quota"; Status := "RESOURCE_EXHAUSTED" |}))
           "KEY" "say hi" "{}" "{...}"
           {| StatusCode := 429; ReadAll := Some "{...}" |} quiet
           _ eq_refl eq_refl eq_refl eq_refl _) _ _ _));
    simpl; first [discriminate | lia].
Defined.

(** An upstream answer with status 0 is answered with status 200 and the
    error message; one with status 204 is answered 204 without a body;
    one with status 1000 makes the handler panic before anything is
    written. *)
Example upstream_status_0_204_1000 :
  (serve (plain_net 0 "{...}" None None) "KEY" (JObject (Backend.JString "say hi")) quiet).1
    = Some {| status := 200; body := H_error "AI API error" |}
  /\ (serve (plain_net 204 "" None None) "KEY" (JObject (Backend.JString "say hi")) quiet).1
     = Some {| status := 204; body := No_body |}
  /\ answers (plain_net 1000 "{...}" None None) "KEY" (JObject (Backend.JString "say hi")) quiet
     = []
  /\ panicked (plain_net 1000 "{...}" None None) "KEY" (JObject (Backend.JString "say hi")) quiet
     = true.
Proof. repeat split; vm_compute; reflexivity. Qed.

(** While a request is served [c.JSON] is called once.  Either that call
    writes the one answer, or it panics and nothing is written: then the
    model had answered with a status of less or more than three digits,
    other than 0.  At most one request goes to the model, a POST to the
    model's URL with the key; and every response body that was opened is
    closed when the handler is left, by a return or by the panic. *)
Theorem one_answer_or_panic_one_upstream_request (net : Net) (apiKey : string)
    (c : request_body) (w : world) :
  ((exists resp,
      answers net apiKey c w = [resp]
      /\ (serve net apiKey c w).1 = Some resp
      /\ panicked net apiKey c w = false)
   \/ (answers net apiKey c w = []
       /\ (serve net apiKey c w).1 = None
       /\ panicked net apiKey c w = true
       /\ exists jsonData up,
            Do net (httpReq apiKey jsonData) = Some up
            /\ (0 < StatusCode up < 100 \/ 999 < StatusCode up)))
  /\ open_bodies (serve net apiKey c w).2 = open_bodies w
  /\ (sent (serve net apiKey c w).2 = sent w
      \/ exists jsonData,
           sent (serve net apiKey c w).2 = httpReq apiKey jsonData :: sent w).
Proof.
  assert (forall resp : response, exists r, [resp] = [r] /\ answer_of [resp] = Some r
                                            /\ false = false) as Hone.
  { intros resp. by exists resp. }
  unfold answers, panicked, panics, serve, call, calls, handleGenerateScript.
  destruct (ShouldBindJSON c) as [err|req]; [run_handler; answered Hone|].
  destruct (Marshal net (geminiReq req)) as [jsonData|]; [|run_handler; answered Hone].
  destruct (NewRequest_error net (apiUrl apiKey)); [run_handler; answered Hone|].
  run_handler.
  destruct (Do net (httpReq apiKey jsonData)) as [up|] eqn:Hd; run_handler;
    [|answered Hone].
  destruct (ReadAll up) as [body|]; [|run_handler; answered Hone].
  destruct (decide (StatusCode up ≠ 200)) as [Hne|He].
  { assert (forall msg,
      rendered (StatusCode up) (H_error msg) = None ->
      0 < StatusCode up < 100 \/ 999 < StatusCode up) as Hout.
    { intros msg H.
      destruct (rendered_by_status (StatusCode up) (H_error msg)) as (H0 & H1 & H2 & H3).
      destruct (decide (StatusCode up = 0)) as [Hz|Hnz];
        [rewrite (H0 Hz) in H; discriminate|].
      destruct (decide (StatusCode up < 100 \/ 999 < StatusCode up)) as [?|?]; [lia|].
      destruct (decide (StatusCode up <= 199 \/ StatusCode up = 204 \/ StatusCode up = 304));
        [rewrite H2 in H by lia|rewrite H3 in H by lia]; discriminate. }
    destruct (Unmarshal_error net body) as [e|]; [destruct (decide (Message e ≠ ""))|];
      run_handler;
      match goal with |- context [rendered ?c (H_error ?m)] =>
        destruct (rendered c (H_error m)) eqn:Hrend end;
      simpl;
      first [answered Hone
            | split; [|split; [reflexivity|right; by eexists]];
              right; repeat split; exists jsonData, up; split; [assumption|];
              eapply Hout, Hrend]. }
  destruct (Unmarshal_response net body) as [g|]; [|run_handler; answered Hone].
  destruct (Candidates g) as [|[|script parts] rest]; run_handler; answered Hone.
Qed.

(** A request without a prompt, or with an empty one, is answered 400 and
    nothing is sent to the model. *)
Theorem empty_prompt_rejected (net : Net) (apiKey : string) (w : world) :
  (exists msg, serve net apiKey (JObject Backend.Missing) w
               = (Some {| status := 400; body := H_error msg |}, w))
  /\ (exists msg, serve net apiKey (JObject (Backend.JString "")) w
                  = (Some {| status := 400; body := H_error msg |}, w)).
Proof.
  split; eexists; unfold serve, call, calls, handleGenerateScript; simpl;
    run_handler; destruct w; reflexivity.
Qed.

End GenerateFacts.

(* ===================================================================== *)
(** * More about the terminal session                                     *)
(* ===================================================================== *)

Module SessionFacts.
Import Terminal TerminalFacts Session.

(** Proving [Forall appending] of a queue that is written out. *)
Ltac appending_queue :=
  repeat (apply List.Forall_cons;
          [first [exact I | (intros prev; eexists; reflexivity)] |]);
  try apply List.Forall_nil.

Section Component.
Variable onExecute : option (jsstring -> list ref_call).

(** ** Commands that are not built in *)

Lemma handle_calls_queue (cs : list ref_call) (p : pending) :
  (mapM useImperativeHandle cs p).2
    = {| heap := heap p; queue := queue p ++ (call_update <$> cs) |}.
Proof.
  revert p. induction cs as [|c cs IH]; intros p.
  - destruct p; simpl. by rewrite app_nil_r.
  - simpl. unfold mbind, Handler_bind.
    destruct (useImperativeHandle c p) as [x p1] eqn:E1.
    specialize (IH p1).
    destruct (mapM useImperativeHandle cs p1) as [y p2]. simpl in *. subst p2.
    destruct c; simpl in E1; injection E1 as _ <-; simpl; by rewrite <- app_assoc.
Qed.

Lemma render_calls (cs : list ref_call) (st : state) (s : store) :
  foldl (fun r u => apply_update u r) (st, s) (call_update <$> cs)
    = ({| lines := after_calls (lines st) cs; currentInput := currentInput st;
          history := history st; historyIndex := historyIndex st;
          workingDirectory := workingDirectory st |}, s).
Proof.
  revert st. induction cs as [|c cs IH]; intros st.
  - destruct st; reflexivity.
  - destruct c; simpl; rewrite IH; reflexivity.
Qed.

Lemma executeCommand_unknown (st : state) (command : jsstring) (p : pending) :
  builtin st (first_token command) = None ->
  (executeCommand onExecute st command p).2
    = {| heap := heap p; queue := queue p ++ (call_update <$> calls_for onExecute command) |}.
Proof.
  unfold executeCommand, first_token, calls_for.
  destruct (split 32 (trim command)) as [|cmd args] eqn:Es.
  { by destruct (split_nonempty _ _ Es). }
  simpl. intros ->.
  destruct onExecute as [f|].
  - unfold mbind, Handler_bind.
    pose proof (handle_calls_queue (f command) p) as E.
    destruct (mapM useImperativeHandle (f command) p) as [y p2]. exact E.
  - destruct p; simpl. by rewrite app_nil_r.
Qed.

Lemma submit_unknown (st : state) (s : store) (c : jsstring) :
  truthy (trim c) = true ->
  builtin st (first_token c) = None ->
  run onExecute (st, s) (submit c) =
    ({| lines := after_calls (lines st ++ [echo st c]) (calls_for onExecute (trim c)) ++ [prompt];
        currentInput := str "";
        history := next s;
        historyIndex := -1;
        workingDirectory := workingDirectory st |},
     {| arrays := <[next s := take 50 (trim c :: read (history st) s)]> (arrays s);
        next := S (next s) |}).
Proof.
  intros Ht Hb. rewrite run_submit, step_onChange.
  unfold step, handler_of, handleKeyDown, Enter. cbn [key ctrlKey currentInput].
  rewrite bool_decide_true by reflexivity. rewrite Ht.
  unfold mbind, Handler_bind, enqueue at 1 2 3. simpl.
  match goal with |- context [executeCommand _ ?st1 _ ?p] =>
    pose proof (executeCommand_unknown st1 (trim c) p) as E;
    destruct (executeCommand onExecute st1 (trim c) p) as [x p1] end.
  simpl in E. rewrite first_token_trim in E. specialize (E Hb). subst p1.
  unfold enqueue, render. simpl.
  rewrite !foldl_app. simpl. rewrite render_calls. reflexivity.
Qed.

(** ** The transcript only grows *)

Lemma render_appending (us : list update) :
  Forall appending us ->
  forall (st : state) (s : store),
  exists new, lines (foldl (fun r u => apply_update u r) (st, s) us).1 = lines st ++ new.
Proof.
  induction 1 as [|u us Hu _ IH]; intros st s.
  - exists []. simpl. by rewrite app_nil_r.
  - destruct u; simpl in Hu; simpl;
      match goal with |- context [foldl _ (?st1, ?s1) us] =>
        destruct (IH st1 s1) as (new & ->) end; simpl; try by exists new.
    destruct (Hu (lines st)) as (new1 & ->).
    exists (new1 ++ new). by rewrite app_assoc.
Qed.

Lemma executeCommand_appending (st : state) (command : jsstring) (p : pending) :
  str "clear" ≠ first_token command ->
  (forall c, clear ∉ calls_for onExecute c) ->
  exists us, Forall appending us
             /\ queue (executeCommand onExecute st command p).2 = queue p ++ us.
Proof.
  intros Hclear Hcalls.
  destruct (builtin st (first_token command)) as [b|] eqn:Hb.
  - revert Hb Hclear. unfold executeCommand, first_token.
    destruct (split 32 (trim command)) as [|cmd args] eqn:Es.
    { by destruct (split_nonempty _ _ Es). }
    simpl hd. intros Hb Hclear. rewrite Hb. rewrite builtin_cases in Hb.
    assert (forall out : jsstring, forall q : pending,
              exists us, Forall appending us /\
                queue ((if truthy out then
                          enqueue (setLines (fun prev =>
                            prev ++ [{| content := out; type := output |}]))
                        else mret tt) q).2 = queue q ++ us) as Hout.
    { intros out q. destruct (truthy out).
      - eexists [_]. split; cycle 1; [reflexivity|appending_queue].
      - exists []. split; [constructor|]. simpl. by rewrite app_nil_r. }
    destruct (bool_decide (str "clear" = cmd)) eqn:E1;
      [apply bool_decide_eq_true in E1; contradiction|].
    destruct (bool_decide (str "help" = cmd)).
    { injection Hb as <-. eexists [_]. split; cycle 1; [reflexivity|appending_queue]. }
    destruct (bool_decide (str "pwd" = cmd)).
    { injection Hb as <-. exact (Hout (workingDirectory st) p). }
    destruct (bool_decide (str "cd" = cmd)).
    { injection Hb as <-. eexists [_]. split; cycle 1; [reflexivity|appending_queue]. }
    destruct (bool_decide (str "history" = cmd)); [|discriminate].
    injection Hb as <-. unfold mbind, Handler_bind. simpl.
    match goal with |- context [truthy ?o] =>
      destruct (Hout o {| heap := reversed_in_place (history st) (heap p);
                          queue := queue p |}) as (us & Hus & E) end.
    exists us. split; [exact Hus|exact E].
  - rewrite (executeCommand_unknown st command p Hb). simpl.
    eexists. split; [|reflexivity].
    apply Forall_fmap, Forall_forall. intros c Hc.
    destruct c; simpl; [intros prev; by eexists|].
    by destruct (Hcalls command).
Qed.

Lemma handler_appending (st : state) (ev : event) (p : pending) :
  (forall c, clear ∉ calls_for onExecute c) ->
  str "clear" ≠ first_token (currentInput st) ->
  match ev with
  | onKeyDown e => ~ (ctrlKey e = true /\ key e = str "l")
  | handle c => c ≠ clear
  | onChange _ => True
  end ->
  exists us, Forall appending us
             /\ queue (handler_of onExecute st ev p).2 = queue p ++ us.
Proof.
  intros Hcalls Hclear Hev.
  assert (exists us, Forall appending us /\ queue p = queue p ++ us) as Hnone.
  { exists []. split; [constructor|by rewrite app_nil_r]. }
  destruct ev as [[k ctrl]|v|c]; simpl in Hev.
  - unfold handler_of, handleKeyDown. cbn [key ctrlKey].
    destruct (bool_decide (k = str "Enter")).
    { destruct (truthy (trim (currentInput st))); [|exact Hnone].
      unfold mbind, Handler_bind, enqueue at 1 2 3. simpl.
      match goal with |- context [executeCommand _ _ ?cmd ?q] =>
        destruct (executeCommand_appending st cmd q) as (us & Hus & E);
          [by rewrite first_token_trim|exact Hcalls|];
        destruct (executeCommand onExecute st cmd q) as [x p1] end.
      simpl in *. rewrite E.
      eexists (_ :: _ :: _ :: us ++ [_; _]). split; cycle 1.
      { rewrite <- !app_assoc. reflexivity. }
      appending_queue.
      apply Forall_app. split; [exact Hus|]. appending_queue. }
    destruct (bool_decide (k = str "ArrowUp")).
    { unfold mbind, Handler_bind, Array_length. simpl.
      destruct (_ <? _)%Z; [|exact Hnone].
      eexists [_; _]. split; cycle 1; [simpl; by rewrite <- app_assoc|appending_queue]. }
    destruct (bool_decide (k = str "ArrowDown")).
    { destruct (0 <? _)%Z.
      - eexists [_; _]. split; cycle 1; [simpl; by rewrite <- app_assoc|appending_queue].
      - destruct (_ =? 0)%Z; [|exact Hnone].
        eexists [_; _]. split; cycle 1; [simpl; by rewrite <- app_assoc|appending_queue]. }
    destruct (bool_decide (k = str "Tab")).
    { destruct (find _ _); [|exact Hnone].
      eexists [_]. split; cycle 1; [reflexivity|appending_queue]. }
    destruct ctrl; [|exact Hnone]. simpl.
    destruct (bool_decide (k = str "l")) eqn:El; [|exact Hnone].
    apply bool_decide_eq_true in El. destruct Hev. by split.
  - eexists [_]. split; cycle 1; [reflexivity|appending_queue].
  - destruct c; [|congruence].
    eexists [_]. split; cycle 1; [reflexivity|appending_queue].
Qed.

(** ** The history array along a session *)

Lemma step_history_cases (st : state) (s : store) (ev : event) :
  history_of (step onExecute (st, s) ev) = history_of (st, s)
  \/ length (history_of (step onExecute (st, s) ev)) <= 50.
Proof.
  destruct ev as [[k ctrl]|v|c].
  - destruct (decide (k = str "Enter")) as [->|Hk].
    + destruct (truthy (trim (currentInput st))) eqn:Ht.
      * right. destruct (step_Enter_key_submitted onExecute ctrl st s Ht) as (ls & wd & ->).
        unfold history_of, read. simpl. rewrite lookup_insert_eq. simpl.
        rewrite length_take. lia.
      * left. by rewrite step_Enter_key_blank.
    + left. destruct (step_keeps_history onExecute st s
                        (onKeyDown {| key := k; ctrlKey := ctrl |}) Hk) as [Hs Hh].
      unfold history_of. by rewrite Hs, Hh.
  - left. reflexivity.
  - left. destruct c; reflexivity.
Qed.

Lemma run_history_bounded (r : state * store) (evs : list event) :
  length (history_of r) <= 50 ->
  length (history_of (run onExecute r evs)) <= 50.
Proof.
  intros Hr. induction evs as [|ev evs IH] using rev_ind; [exact Hr|].
  rewrite run_app. simpl.
  destruct (run onExecute r evs) as [st s].
  change (run onExecute (st, s) [ev]) with (step onExecute (st, s) ev).
  destruct (step_history_cases st s ev) as [-> | H]; [exact IH|exact H].
Qed.

(** ** The arrow keys *)

Lemma step_ArrowUp_selects (st : state) (s : store) (x : jsstring) :
  (-1 <= historyIndex st)%Z ->
  read (history st) s !! Z.to_nat (historyIndex st + 1) = Some x ->
  step onExecute (st, s) ArrowUp =
    ({| lines := lines st; currentInput := x; history := history st;
        historyIndex := historyIndex st + 1;
        workingDirectory := workingDirectory st |}, s).
Proof.
  intros Hi Hx. unfold ArrowUp. rewrite step_ArrowUp_key.
  pose proof (lookup_lt_Some _ _ _ Hx) as Hlt.
  destruct (_ <? _)%Z eqn:E; [|apply Z.ltb_ge in E; lia].
  unfold entry, Array_get. simpl.
  destruct (_ <? 0)%Z eqn:E0; [apply Z.ltb_lt in E0; lia|].
  by rewrite Hx.
Qed.

Lemma run_ArrowUps (k : nat) (st : state) (s : store) (x : jsstring) :
  historyIndex st = (-1)%Z ->
  read (history st) s !! k = Some x ->
  run onExecute (st, s) (replicate (S k) ArrowUp) =
    ({| lines := lines st; currentInput := x; history := history st;
        historyIndex := Z.of_nat k;
        workingDirectory := workingDirectory st |}, s).
Proof.
  intros Hi. revert x. induction k as [|k IH]; intros x Hx.
  - change (run onExecute (st, s) (replicate 1 ArrowUp))
      with (step onExecute (st, s) ArrowUp).
    rewrite (step_ArrowUp_selects st s x); [by rewrite Hi|lia|by rewrite Hi].
  - destruct (lookup_lt_is_Some_2 (read (history st) s) k) as [y Hy];
      [apply lookup_lt_Some in Hx; lia|].
    rewrite replicate_S_end, run_app, (IH y Hy).
    match goal with |- run _ (?st1, _) _ = _ =>
      change (run onExecute (st1, s) [ArrowUp]) with (step onExecute (st1, s) ArrowUp);
      rewrite (step_ArrowUp_selects st1 s x) end.
    + simpl. do 2 f_equal. lia.
    + simpl. lia.
    + simpl. by replace (Z.to_nat (Z.of_nat k + 1)) with (S k) by lia.
Qed.

(** ** Tab *)

Lemma step_Tab (st : state) (s : store) :
  step onExecute (st, s) Tab =
    match find (fun cmd => startsWith (name cmd) (toLowerCase (currentInput st)))
               (builtInCommands st) with
    | Some c => ({| lines := lines st; currentInput := name c; history := history st;
                    historyIndex := historyIndex st;
                    workingDirectory := workingDirectory st |}, s)
    | None => (st, s)
    end.
Proof.
  unfold step, Tab, handler_of.
  change (handleKeyDown onExecute st {| key := str "Tab"; ctrlKey := false |})
    with (match find (fun cmd => startsWith (name cmd) (toLowerCase (currentInput st)))
                     (builtInCommands st) with
          | Some suggestion => enqueue (setCurrentInput (name suggestion))
          | None => mret tt
          end).
  destruct (find _ _); [reflexivity|]. destruct st; reflexivity.
Qed.

(** ** Local storage *)

Lemma next_after_dispatch (l : nat) (command : jsstring) (s : store) :
  next (after_dispatch l command s) = next s.
Proof. unfold after_dispatch. by destruct (bool_decide _). Qed.

Lemma session_step_persisted (σ : session) (ev : event) :
  persisted σ -> persisted (session_step onExecute σ ev).
Proof.
  destruct σ as [[st s] stored]. unfold persisted, session_step.
  cbn [view terminalHistory]. intros [Hwf Hst]. simpl in Hwf.
  assert (forall r' : state * store,
            r'.2 = s -> history r'.1 = history st ->
            history r'.1 < next r'.2
            /\ save_effect (st, s) r' stored = Some (history_of r')) as Hsame.
  { intros [st' s'] Hs Hh. simpl in *. subst s'.
    split; [by rewrite Hh|].
    unfold save_effect. simpl. rewrite decide_True by exact Hh.
    rewrite Hst. unfold history_of. simpl. by rewrite Hh. }
  destruct ev as [[k ctrl]|v|c].
  - destruct (decide (k = str "Enter")) as [->|Hk].
    + destruct (truthy (trim (currentInput st))) eqn:Ht.
      * destruct (step_Enter_key_submitted onExecute ctrl st s Ht) as (ls & wd & ->).
        unfold save_effect. cbn [fst snd history next].
        rewrite next_after_dispatch. split; [lia|].
        rewrite decide_False by lia. reflexivity.
      * rewrite step_Enter_key_blank by exact Ht. by apply Hsame.
    + destruct (step_keeps_history onExecute st s
                  (onKeyDown {| key := k; ctrlKey := ctrl |}) Hk) as [Hs Hh].
      by apply Hsame.
  - by apply Hsame.
  - destruct c; by apply Hsame.
Qed.

Lemma mount_persisted (wd : jsstring) (stored : option (list jsstring)) :
  persisted (mount wd stored).
Proof.
  destruct stored as [a|]; unfold persisted, mount; simpl; split; try lia; reflexivity.
Qed.

Lemma session_run_persisted (wd : jsstring) (stored : option (list jsstring))
    (evs : list event) :
  persisted (session_run onExecute (mount wd stored) evs).
Proof.
  induction evs as [|ev evs IH] using rev_ind; [apply mount_persisted|].
  unfold session_run. rewrite foldl_app. simpl. by apply session_step_persisted.
Qed.

Lemma mount_history (wd : jsstring) (a : list jsstring) :
  history_of (view (mount wd (Some a))) = a.
Proof. reflexivity. Qed.

End Component.

(** ** Commands that are not built in *)

(** A submitted text whose command word is not in the table is handed,
    trimmed, to [onExecute]: the transcript gets the echo of the input as
    typed, then what the calls of [onExecute] on the handle make of it,
    then a prompt; the input is emptied, the command is put in front of
    the history, and the working directory stays. *)
Theorem unknown_command_goes_to_onExecute
    (onExecute : option (jsstring -> list ref_call))
    (st : state) (s : store) (c : jsstring) :
  truthy (trim c) = true ->
  builtin st (first_token c) = None ->
  run onExecute (st, s) (submit c) =
    ({| lines := after_calls (lines st ++ [echo st c])
                   (match onExecute with Some f => f (trim c) | None => [] end)
                 ++ [prompt];
        currentInput := str "";
        history := next s;
        historyIndex := -1;
        workingDirectory := workingDirectory st |},
     {| arrays := <[next s := take 50 (trim c :: read (history st) s)]> (arrays s);
        next := S (next s) |}).
Proof. apply submit_unknown. Qed.

Lemma unknown_command_goes_to_onExecute_witness :
  run None (fresh.1, fresh.2) (submit (str " ls -l ")) =
    ({| lines := after_calls (lines fresh.1 ++ [echo fresh.1 (str " ls -l ")]) []
                 ++ [prompt];
        currentInput := str "";
        history := next fresh.2;
        historyIndex := -1;
        workingDirectory := workingDirectory fresh.1 |},
     {| arrays := <[next fresh.2 := take 50 (trim (str " ls -l ")
                                               :: read (history fresh.1) fresh.2)]>
                    (arrays fresh.2);
        next := S (next fresh.2) |}).
Proof.
  apply (unknown_command_goes_to_onExecute None fresh.1 fresh.2 (str " ls -l "));
    reflexivity.
Defined.

(** In the application, a command that is not built in is only announced:
    after the echo comes one output line, [Executing: ] and the trimmed
    command and a newline, then the prompt. *)
Theorem App_announces_unknown_command (st : state) (s : store) (c : jsstring) :
  truthy (trim c) = true ->
  builtin st (first_token c) = None ->
  lines (run App_onExecute (st, s) (submit c)).1 =
    lines st ++
    [ echo st c;
      {| content := str "Executing: " ++ trim c ++ str "
"; type := output |};
      prompt ].
Proof.
  intros Ht Hb. rewrite (submit_unknown App_onExecute st s c Ht Hb).
  simpl. by rewrite <- !app_assoc.
Qed.

Lemma App_announces_unknown_command_witness :
  lines (run App_onExecute (fresh.1, fresh.2) (submit (str " ls -l "))).1 =
    lines fresh.1 ++
    [ echo fresh.1 (str " ls -l ");
      {| content := str "Executing: " ++ trim (str " ls -l ") ++ str "
"; type := output |};
      prompt ].
Proof.
  apply (App_announces_unknown_command fresh.1 fresh.2 (str " ls -l ")); reflexivity.
Defined.

(** ** Blank input *)

(** Enter on an input that is empty or white space only changes nothing:
    transcript, history, cursor, working directory and store stay, and the
    input keeps its white space. *)
Theorem blank_submission_changes_nothing
    (onExecute : option (jsstring -> list ref_call))
    (st : state) (s : store) (c : jsstring) :
  truthy (trim c) = false ->
  run onExecute (st, s) (submit c) =
    ({| lines := lines st; currentInput := c; history := history st;
        historyIndex := historyIndex st;
        workingDirectory := workingDirectory st |}, s).
Proof.
  intros Ht. rewrite run_submit, step_onChange. by rewrite step_Enter_blank.
Qed.

Lemma blank_submission_changes_nothing_witness :
  run None (after_a_b.1, after_a_b.2) (submit (str "   ")) =
    ({| lines := lines after_a_b.1; currentInput := str "   ";
        history := history after_a_b.1;
        historyIndex := historyIndex after_a_b.1;
        workingDirectory := workingDirectory after_a_b.1 |}, after_a_b.2).
Proof.
  apply (blank_submission_changes_nothing None after_a_b.1 after_a_b.2 (str "   ")).
  reflexivity.
Defined.

(** ** The history buffer *)

(** A history of at most 50 entries stays at most 50 entries long,
    whatever the events. *)
Theorem history_never_exceeds_50
    (onExecute : option (jsstring -> list ref_call))
    (r : state * store) (evs : list event) :
  length (history_of r) <= 50 ->
  length (history_of (run onExecute r evs)) <= 50.
Proof. apply run_history_bounded. Qed.

Lemma history_never_exceeds_50_witness :
  length (history_of (run None fresh (submit_all sixty ++ [ArrowUp; Tab]))) <= 50.
Proof.
  apply (history_never_exceeds_50 None fresh (submit_all sixty ++ [ArrowUp; Tab])).
  vm_compute. lia.
Defined.

(** Submissions among which none runs the [history] built-in leave the
    buffer most recent first: the trimmed commands, newest first, in front
    of the earlier entries, cut after 50. *)
Theorem plain_submissions_are_most_recent_first
    (onExecute : option (jsstring -> list ref_call))
    (cs : list jsstring) (r : state * store) :
  Forall plain cs ->
  length (history_of r) <= 50 ->
  history_of (run onExecute r (submit_all cs)) =
    take 50 (reverse (trim <$> cs) ++ history_of r).
Proof. intros H. by apply history_after_plain_submissions. Qed.

Lemma plain_submissions_are_most_recent_first_witness :
  history_of (run None after_a_b (submit_all [str " cd /tmp "; str "pwd"])) =
    take 50 (reverse (trim <$> [str " cd /tmp "; str "pwd"]) ++ history_of after_a_b).
Proof.
  apply (plain_submissions_are_most_recent_first None
           [str " cd /tmp "; str "pwd"] after_a_b).
  - repeat constructor.
  - vm_compute. lia.
Defined.

(** Only Enter on an input that is not blank touches the store and the
    history array: every other event leaves both as they are. *)
Theorem only_submissions_touch_history
    (onExecute : option (jsstring -> list ref_call))
    (st : state) (s : store) (ev : event) :
  match ev with
  | onKeyDown e => key e = str "Enter" -> truthy (trim (currentInput st)) = false
  | _ => True
  end ->
  (step onExecute (st, s) ev).2 = s
  /\ history (step onExecute (st, s) ev).1 = history st
  /\ history_of (step onExecute (st, s) ev) = history_of (st, s).
Proof.
  intros Hev.
  assert ((step onExecute (st, s) ev).2 = s
          /\ history (step onExecute (st, s) ev).1 = history st) as [Hs Hh].
  { destruct ev as [[k ctrl]|v|c].
    - destruct (decide (k = str "Enter")) as [->|Hk].
      + rewrite step_Enter_key_blank by (by apply Hev). done.
      + by apply step_keeps_history.
    - by apply step_keeps_history.
    - by apply step_keeps_history. }
  repeat split; [exact Hs|exact Hh|]. unfold history_of. by rewrite Hs, Hh.
Qed.

Lemma only_submissions_touch_history_witness :
  (step None (after_a_b.1, after_a_b.2) Ctrl_L).2 = after_a_b.2
  /\ history (step None (after_a_b.1, after_a_b.2) Ctrl_L).1 = history after_a_b.1
  /\ history_of (step None (after_a_b.1, after_a_b.2) Ctrl_L)
     = history_of (after_a_b.1, after_a_b.2).
Proof.
  apply (only_submissions_touch_history None after_a_b.1 after_a_b.2 Ctrl_L).
  intros H. vm_compute in H. discriminate.
Defined.

(** ** The history cursor *)

(** In every state a session reaches, the cursor is -1 or an index of the
    history array, and the element an arrow key then reads is an element
    of the array. *)
Theorem cursor_stays_in_range
    (onExecute : option (jsstring -> list ref_call))
    (wd : jsstring) (saved : list jsstring) (evs : list event) :
  let r := run onExecute (initial wd saved) evs in
  (-1 <= historyIndex r.1 < Z.of_nat (length (history_of r)))%Z
  /\ ((historyIndex r.1 <? Z.of_nat (length (history_of r)) - 1)%Z = true ->
      history_of r !! Z.to_nat (historyIndex r.1 + 1)
        = Some (entry (history r.1) (historyIndex r.1 + 1) r.2))
  /\ ((0 <? historyIndex r.1)%Z = true ->
      history_of r !! Z.to_nat (historyIndex r.1 - 1)
        = Some (entry (history r.1) (historyIndex r.1 - 1) r.2)).
Proof. apply index_in_range. Qed.

(** Up-arrow at the oldest entry, or with an empty history, and Down-arrow
    with nothing selected, do nothing. *)
Theorem arrows_stop_at_the_ends
    (onExecute : option (jsstring -> list ref_call)) (st : state) (s : store) :
  ((Z.of_nat (length (read (history st) s)) - 1 <= historyIndex st)%Z ->
     step onExecute (st, s) ArrowUp = (st, s))
  /\ ((historyIndex st < 0)%Z ->
     step onExecute (st, s) ArrowDown = (st, s)).
Proof.
  split; intros H.
  - unfold ArrowUp. rewrite step_ArrowUp_key.
    destruct (_ <? _)%Z eqn:E; [apply Z.ltb_lt in E; lia|reflexivity].
  - unfold ArrowDown. rewrite step_ArrowDown_key.
    destruct (0 <? _)%Z eqn:E; [apply Z.ltb_lt in E; lia|].
    destruct (_ =? 0)%Z eqn:E0; [apply Z.eqb_eq in E0; lia|reflexivity].
Qed.

Lemma arrows_stop_at_the_ends_witness :
  step None (fresh.1, fresh.2) ArrowUp = (fresh.1, fresh.2)
  /\ step None (fresh.1, fresh.2) ArrowDown = (fresh.1, fresh.2).
Proof.
  split.
  - apply (proj1 (arrows_stop_at_the_ends None fresh.1 fresh.2)). vm_compute. discriminate.
  - apply (proj2 (arrows_stop_at_the_ends None fresh.1 fresh.2)). vm_compute. reflexivity.
Defined.

(** With nothing selected, [k+1] Up-arrows select entry [k] of the history
    (0 is the most recent): the input becomes that entry and the cursor
    [k]; nothing else changes. *)
Theorem up_arrows_walk_back
    (onExecute : option (jsstring -> list ref_call))
    (k : nat) (st : state) (s : store) (x : jsstring) :
  historyIndex st = (-1)%Z ->
  read (history st) s !! k = Some x ->
  run onExecute (st, s) (replicate (S k) ArrowUp) =
    ({| lines := lines st; currentInput := x; history := history st;
        historyIndex := Z.of_nat k;
        workingDirectory := workingDirectory st |}, s).
Proof. apply run_ArrowUps. Qed.

Lemma up_arrows_walk_back_witness :
  run None (after_a_b.1, after_a_b.2) (replicate 2 ArrowUp) =
    ({| lines := lines after_a_b.1; currentInput := str "a";
        history := history after_a_b.1;
        historyIndex := Z.of_nat 1;
        workingDirectory := workingDirectory after_a_b.1 |}, after_a_b.2).
Proof.
  apply (up_arrows_walk_back None 1 after_a_b.1 after_a_b.2 (str "a")); reflexivity.
Defined.

(** With nothing selected and a history that is not empty, Up-arrow and
    then Down-arrow end with nothing selected and an empty input: what was
    typed before is not brought back. *)
Theorem up_then_down_empties_the_input
    (onExecute : option (jsstring -> list ref_call)) (st : state) (s : store) :
  historyIndex st = (-1)%Z ->
  read (history st) s ≠ [] ->
  run onExecute (st, s) [ArrowUp; ArrowDown] =
    ({| lines := lines st; currentInput := str ""; history := history st;
        historyIndex := -1;
        workingDirectory := workingDirectory st |}, s).
Proof.
  intros Hi Hne.
  destruct (read (history st) s) as [|x h] eqn:Eh; [congruence|].
  change (run onExecute (st, s) [ArrowUp; ArrowDown])
    with (step onExecute (step onExecute (st, s) ArrowUp) ArrowDown).
  rewrite (step_ArrowUp_selects onExecute st s x);
    [|lia|by rewrite Hi, Eh].
  unfold ArrowDown. rewrite step_ArrowDown_key. simpl. rewrite Hi. reflexivity.
Qed.

Lemma up_then_down_empties_the_input_witness :
  run None ({| lines := lines after_a_b.1; currentInput := str "typed";
               history := history after_a_b.1; historyIndex := -1;
               workingDirectory := workingDirectory after_a_b.1 |}, after_a_b.2)
      [ArrowUp; ArrowDown] =
    ({| lines := lines after_a_b.1; currentInput := str "";
        history := history after_a_b.1; historyIndex := -1;
        workingDirectory := workingDirectory after_a_b.1 |}, after_a_b.2).
Proof.
  apply (up_then_down_empties_the_input None
           {| lines := lines after_a_b.1; currentInput := str "typed";
              history := history after_a_b.1; historyIndex := -1;
              workingDirectory := workingDirectory after_a_b.1 |} after_a_b.2).
  - reflexivity.
  - vm_compute. discriminate.
Defined.

(** ** The transcript *)

(** The transcript only grows, except by a clear: when [onExecute] never
    calls [clear] on the handle and the command word of the input is not
    [clear], every event other than the clear shortcut and a [clear] call
    on the handle keeps the lines there are, in their order, and may add
    lines after them. *)
Theorem transcript_only_grows
    (onExecute : option (jsstring -> list ref_call))
    (st : state) (s : store) (ev : event) :
  (forall c, clear ∉ calls_for onExecute c) ->
  str "clear" ≠ first_token (currentInput st) ->
  match ev with
  | onKeyDown e => ~ (ctrlKey e = true /\ key e = str "l")
  | handle c => c ≠ clear
  | onChange _ => True
  end ->
  exists new, lines (step onExecute (st, s) ev).1 = lines st ++ new.
Proof.
  intros Hcalls Hclear Hev. unfold step, render.
  destruct (handler_appending onExecute st ev {| heap := s; queue := [] |}
              Hcalls Hclear Hev) as (us & Hus & E).
  simpl in E. rewrite E. by apply render_appending.
Qed.

Lemma transcript_only_grows_witness :
  exists new,
    lines (step None ({| lines := lines after_a_b.1; currentInput := str "history";
                         history := history after_a_b.1; historyIndex := -1;
                         workingDirectory := workingDirectory after_a_b.1 |},
                      after_a_b.2) Enter).1
    = lines after_a_b.1 ++ new.
Proof.
  apply (transcript_only_grows None
           {| lines := lines after_a_b.1; currentInput := str "history";
              history := history after_a_b.1; historyIndex := -1;
              workingDirectory := workingDirectory after_a_b.1 |} after_a_b.2 Enter).
  - intros c. apply not_elem_of_nil.
  - vm_compute. discriminate.
  - vm_compute. intros [H _]. discriminate.
Defined.

(** ** Tab *)

(** A second Tab changes nothing: a completed name completes to itself. *)
Theorem tab_is_stable
    (onExecute : option (jsstring -> list ref_call)) (st : state) (s : store) :
  step onExecute (step onExecute (st, s) Tab) Tab = step onExecute (st, s) Tab.
Proof.
  rewrite (step_Tab onExecute st s).
  destruct (find _ (builtInCommands st)) as [c|] eqn:E.
  - apply find_some in E as [Hin _].
    rewrite step_Tab.
    destruct Hin as [<-|[<-|[<-|[<-|[<-|[]]]]]]; reflexivity.
  - rewrite step_Tab, E. reflexivity.
Qed.

(** ** Local storage *)

(** After mounting and after every event, local storage holds the
    elements of the history array as they are in the state. *)
Theorem stored_history_is_current
    (onExecute : option (jsstring -> list ref_call))
    (wd : jsstring) (stored : option (list jsstring)) (evs : list event) :
  let σ := session_run onExecute (mount wd stored) evs in
  terminalHistory σ = Some (history_of (view σ)).
Proof. intros σ. apply (session_run_persisted onExecute wd stored evs). Qed.

(** Mounting a new terminal on the local storage a session left starts
    with the history that session ended with. *)
Theorem reload_restores_history
    (onExecute : option (jsstring -> list ref_call))
    (wd wd' : jsstring) (stored : option (list jsstring)) (evs : list event) :
  let σ := session_run onExecute (mount wd stored) evs in
  history_of (view (mount wd' (terminalHistory σ))) = history_of (view σ).
Proof.
  intros σ.
  destruct (session_run_persisted onExecute wd stored evs) as [_ H].
  fold σ in H. rewrite H. apply mount_history.
Qed.

End SessionFacts.

(* ===================================================================== *)
(** * Properties of the script dialog                                     *)
(* ===================================================================== *)

Module DialogFacts.
Import Terminal Dialog.

Lemma startsWith_app (p r : jsstring) : startsWith (p ++ r) p = true.
Proof.
  induction p as [|c p IH]; simpl; [by destruct r|].
  by rewrite N.eqb_refl, IH.
Qed.


Lemma cut_cons (pat : jsstring) (c : N) (s : jsstring) :
  cut pat (c :: s) =
    if startsWith (c :: s) pat then Some ([], drop (length pat) (c :: s))
    else match cut pat s with
         | Some (before, after) => Some (c :: before, after)
         | None => None
         end.
Proof. reflexivity. Qed.

Lemma cut_nil (pat : jsstring) :
  cut pat [] = if startsWith [] pat then Some ([], []) else None.
Proof. by destruct pat. Qed.



Lemma cut_none (pat s : jsstring) : cut pat s = None -> without pat s.
Proof.
  induction s as [|c s IH].
  - rewrite cut_nil. destruct pat; simpl; [discriminate|].
    intros _ x y H. destruct x; discriminate.
  - rewrite cut_cons. destruct (startsWith (c :: s) pat) eqn:E; [discriminate|].
    destruct (cut pat s) as [[a b]|]; [discriminate|].
    intros _ x y H. destruct x as [|d x]; simpl in H.
    + rewrite H, startsWith_app in E. discriminate.
    + injection H as _ H. by apply (IH eq_refl x y).
Qed.

Lemma startsWith_cons_ne (c d : N) (s p : jsstring) :
  d ≠ c -> startsWith (c :: s) (d :: p) = false.
Proof.
  intros H. cbn [startsWith].
  destruct (d =? c)%N eqn:E; [apply N.eqb_eq in E; congruence|reflexivity].
Qed.

Lemma startsWith_cons_eq (c : N) (s p : jsstring) :
  startsWith (c :: s) (c :: p) = startsWith s p.
Proof. cbn [startsWith]. by rewrite N.eqb_refl. Qed.




Lemma cut_opener_after_plain (pre rest : jsstring) :
  96%N ∉ pre -> cut opener (pre ++ opener ++ rest) = Some (pre, rest).
Proof.
  induction pre as [|c pre IH]; intros Hpre.
  - change ([] ++ opener ++ rest) with (opener ++ rest).
    destruct (opener ++ rest) as [|d t] eqn:E; [discriminate|].
    rewrite cut_cons, <- E, startsWith_app.
    by rewrite drop_app_length.
  - apply not_elem_of_cons in Hpre as [Hc Hpre].
    change ((c :: pre) ++ opener ++ rest) with (c :: (pre ++ opener ++ rest)).
    rewrite cut_cons.
    assert (startsWith (c :: pre ++ opener ++ rest) opener = false) as ->.
    { change opener with (96%N :: drop 1 opener) at 2.
      by apply startsWith_cons_ne. }
    by rewrite IH.
Qed.

Lemma cut_fence_line (body post : jsstring) :
  without fence body ->
  cut fence (body ++ [10%N] ++ fence ++ post) = Some (body ++ [10%N], post).
Proof.
  induction body as [|c body IH]; intros Hb.
  - change ([] ++ [10%N] ++ fence ++ post) with (10%N :: (fence ++ post)).
    rewrite cut_cons.
    change (startsWith (10%N :: fence ++ post) fence) with false.
    destruct (fence ++ post) as [|d t] eqn:E; [discriminate|].
    rewrite cut_cons, <- E, startsWith_app. by rewrite drop_app_length.
  - change ((c :: body) ++ [10%N] ++ fence ++ post)
      with (c :: (body ++ [10%N] ++ fence ++ post)).
    rewrite cut_cons.
    assert (startsWith (c :: body ++ [10%N] ++ fence ++ post) fence = false) as ->.
    { change (startsWith ?x fence) with (startsWith x [96; 96; 96]%N).
      destruct (decide (96%N = c)) as [<-|Hc]; [|by apply startsWith_cons_ne].
      rewrite startsWith_cons_eq.
      destruct body as [|d body]; [reflexivity|].
      change ((d :: body) ++ [10%N] ++ fence ++ post)
        with (d :: (body ++ [10%N] ++ fence ++ post)).
      destruct (decide (96%N = d)) as [<-|Hd]; [|by apply startsWith_cons_ne].
      rewrite startsWith_cons_eq.
      destruct body as [|e body]; [reflexivity|].
      change ((e :: body) ++ [10%N] ++ fence ++ post)
        with (e :: (body ++ [10%N] ++ fence ++ post)).
      destruct (decide (96%N = e)) as [<-|He]; [|by apply startsWith_cons_ne].
      by destruct (Hb [] body). }
    rewrite IH; [reflexivity|].
    intros x y H. apply (Hb (c :: x) y). simpl. by rewrite H.
Qed.

(** A generated text made of an introduction without a backquote, a
    [```bash] line, a script without [```] that ends its last line, the
    closing [```] and anything after it: the script shown is that script,
    trimmed. *)
Theorem fenced_script_is_taken_out (pre body post : jsstring) :
  96%N ∉ pre ->
  without fence body ->
  cleanScript (pre ++ opener ++ body ++ [10%N] ++ fence ++ post)
    = trim (body ++ [10%N]).
Proof.
  intros Hpre Hbody. unfold cleanScript.
  rewrite (cut_opener_after_plain pre _ Hpre).
  by rewrite (cut_fence_line body post Hbody).
Qed.

Lemma fenced_script_is_taken_out_witness :
  cleanScript (str "Here is your script:
" ++ opener ++ str "#!/bin/bash
echo `date`" ++ [10%N] ++ fence ++ str "
Run it with care.")
  = trim (str "#!/bin/bash
echo `date`" ++ [10%N]).
Proof.
  apply (fenced_script_is_taken_out (str "Here is your script:
") (str "#!/bin/bash
echo `date`") (str "
Run it with care.")).
  - apply (bool_decide_unpack _). vm_compute. exact I.
  - apply cut_none. reflexivity.
Defined.

End DialogFacts.
